(** * pyecs: the ECS manager of [src/ecs/ecs.py]

    A shallow embedding of [EcsManager] (entity registry, component store,
    archetype index, system registry) and of the frame loop [process],
    followed by the properties of the design description that concern them.

    Python dictionaries keep their keys in insertion order and several
    results of the manager depend on that order (the list returned by
    [destroy_entity], the sequence handed to an action), so a dictionary is
    an association list in insertion order.  The live entity set and the
    [eid] attribute of the component objects have no observable order and
    are a [gset] and a [gmap]. *)

From stdpp Require Import base decidable option list sorting gmap strings.

Set Default Proof Using "Type".

(** ** Insertion-ordered dictionaries *)

Abbreviation dict K V := (list (K * V)).

Section dict.
Context {K V : Type} `{EqDecision K}.
Implicit Types (k : K) (v : V) (d : dict K V).

(** [d[k]] / [d.get(k)]: the value of the first entry whose key is [k]. *)
Fixpoint dget k d : option V :=
  match d with
  | [] => None
  | (k', v) :: d' => if decide (k' = k) then Some v else dget k d'
  end.

(** [k in d] *)
Definition dmem k d : bool :=
  match dget k d with Some _ => true | None => false end.

(** [d[k] = v]: an existing key keeps its position, a new key is
    appended. *)
Fixpoint dset k v d : dict K V :=
  match d with
  | [] => [(k, v)]
  | (k', v') :: d' =>
      if decide (k' = k) then (k', v) :: d' else (k', v') :: dset k v d'
  end.

(** [d.pop(k, None)] / [d.pop(k)] on a present key: the entry of [k]
    disappears, the others keep their order. *)
Definition dpop k d : dict K V := filter (λ kv, kv.1 ≠ k) d.

(** In-place mutation of the object stored under [k]
    ([d[k][...] = ...], [d[k].pop(...)]): the outer dictionary keeps its
    keys and their order. *)
Definition dalter (f : V → V) k d : dict K V :=
  (λ kv, if decide (kv.1 = k) then (kv.1, f kv.2) else kv) <$> d.

Definition dkeys d : list K := d.*1.
Definition dvalues d : list V := d.*2.
End dict.

(** ** Data model *)

(** A component class carries the class attribute [cid] that
    [AutoId.component] assigned to it. *)
Record ComponentClass := { class_cid : nat }.

(** A component instance is a reference to a Python object: its class and
    its identity.  Two instances are the same object iff they are equal. *)
Record Component := { cls : ComponentClass; oid : nat }.

Definition cid (c : Component) : nat := class_cid (cls c).

#[global] Instance ComponentClass_eq_dec : EqDecision ComponentClass.
Proof. solve_decision. Defined.
#[global] Instance Component_eq_dec : EqDecision Component.
Proof. solve_decision. Defined.

Abbreviation Entity := nat (only parsing).
Abbreviation Archetype := (list nat) (only parsing).
(** A system action is a bound method; it is named by an identifier. *)
Abbreviation Action := nat (only parsing).

(** A system object: its identity (dictionary membership of a system is by
    object identity, [SystemBase] only overrides [__hash__]), the class
    attribute [sid], and the dictionary its [actions()] method returns (a
    dictionary, so its keys are pairwise different). *)
Record System := {
  sys_ref : nat;
  sid : nat;
  actions : dict Action (list ComponentClass)
}.

Inductive EcsContinuation := Stop | Continue.

#[global] Instance EcsContinuation_eq_dec : EqDecision EcsContinuation.
Proof. solve_decision. Defined.

Inductive Exception :=
  | ValueError (msg : string)
  | KeyError
  | RuntimeError (msg : string).

(** [flatten_archetype] *)
Definition flatten_archetype (archetype : list ComponentClass) : Archetype :=
  class_cid <$> archetype.

(** The manager.  The fields are those that [__init__] creates; [eid] is not
    an attribute of the manager but the [eid] attribute of every component
    object (keyed by object identity), which [register_component] writes. *)
Record EcsManager := {
  entity_id : nat;
  entities : gset nat;
  systems : dict nat (dict Action Archetype);
  archetypes : dict Archetype (dict Entity (list Component));
  components : dict nat (dict Entity Component);
  deltatime : nat;
  eid : gmap nat nat
}.

(** [EcsManager()] *)
Definition new_manager : EcsManager :=
  {| entity_id := 0; entities := ∅; systems := []; archetypes := [];
     components := []; deltatime := 1; eid := ∅ |}.

Definition set_entity_id (n : nat) (m : EcsManager) : EcsManager :=
  {| entity_id := n; entities := entities m; systems := systems m;
     archetypes := archetypes m; components := components m;
     deltatime := deltatime m; eid := eid m |}.
Definition set_entities (s : gset nat) (m : EcsManager) : EcsManager :=
  {| entity_id := entity_id m; entities := s; systems := systems m;
     archetypes := archetypes m; components := components m;
     deltatime := deltatime m; eid := eid m |}.
Definition set_systems (s : dict nat (dict Action Archetype)) (m : EcsManager)
  : EcsManager :=
  {| entity_id := entity_id m; entities := entities m; systems := s;
     archetypes := archetypes m; components := components m;
     deltatime := deltatime m; eid := eid m |}.
Definition set_archetypes (a : dict Archetype (dict Entity (list Component)))
  (m : EcsManager) : EcsManager :=
  {| entity_id := entity_id m; entities := entities m; systems := systems m;
     archetypes := a; components := components m;
     deltatime := deltatime m; eid := eid m |}.
Definition set_components (c : dict nat (dict Entity Component))
  (m : EcsManager) : EcsManager :=
  {| entity_id := entity_id m; entities := entities m; systems := systems m;
     archetypes := archetypes m; components := c;
     deltatime := deltatime m; eid := eid m |}.
Definition set_deltatime (n : nat) (m : EcsManager) : EcsManager :=
  {| entity_id := entity_id m; entities := entities m; systems := systems m;
     archetypes := archetypes m; components := components m;
     deltatime := n; eid := eid m |}.
Definition set_eid (h : gmap nat nat) (m : EcsManager) : EcsManager :=
  {| entity_id := entity_id m; entities := entities m; systems := systems m;
     archetypes := archetypes m; components := components m;
     deltatime := deltatime m; eid := h |}.

(** ** A state and exception monad for the methods *)

Inductive Result (A : Type) :=
  | Ok (a : A)
  | Raise (e : Exception).
Arguments Ok {A} a.
Arguments Raise {A} e.

Definition M (A : Type) : Type := EcsManager → Result A * EcsManager.

Definition ret {A} (a : A) : M A := λ m, (Ok a, m).
Definition bind {A B} (c : M A) (k : A → M B) : M B :=
  λ m, match c m with
       | (Ok a, m') => k a m'
       | (Raise e, m') => (Raise e, m')
       end.
Definition raise {A} (e : Exception) : M A := λ m, (Raise e, m).
Definition get_state : M EcsManager := λ m, (Ok m, m).
Definition modify (f : EcsManager → EcsManager) : M unit := λ m, (Ok tt, f m).

Notation "'do' x <- c ; k" := (bind c (λ x, k))
  (at level 10, x name, c at level 100, k at level 200,
   format "'[v' 'do'  x  <-  c ; '/' k ']'").
Notation "c ;; k" := (bind c (λ _, k))
  (at level 100, k at level 200, right associativity).

(** [for x in xs: body(x)], stopping at the first exception. *)
Fixpoint for_each {A} (xs : list A) (body : A → M unit) : M unit :=
  match xs with
  | [] => ret tt
  | x :: xs' => body x ;; for_each xs' body
  end.

(** ** The methods of [EcsManager] *)

(** One round of the loop of [register_system]: bind the action and create
    the bucket of its archetype when there is none.  The key [system] is in
    [self.systems] at that point (the caller has just inserted it). *)
Definition register_action (system : nat) (m : EcsManager)
    (entry : Action * list ComponentClass) : EcsManager :=
  let archetype := flatten_archetype entry.2 in
  let m1 := set_systems (dalter (dset entry.1 archetype) system (systems m)) m in
  if dmem archetype (archetypes m1)
  then m1
  else set_archetypes (dset archetype [] (archetypes m1)) m1.

Definition register_system (system : System) : M unit :=
  do m <- get_state;
  if dmem (sys_ref system) (systems m) then ret tt
  else
    modify (set_systems (dset (sys_ref system) [] (systems m)));;
    modify (λ m, fold_left (register_action (sys_ref system)) (actions system) m).

(** [action_archetype in other_actionset.values()] for some remaining
    system: the inner [for ... break ... else] of [deregister_system]. *)
Definition archetype_in_use (archetype : Archetype)
    (registry : dict nat (dict Action Archetype)) : bool :=
  existsb (λ other, bool_decide (archetype ∈ dvalues other.2)) registry.

Definition drop_stale_archetype (m : EcsManager)
    (entry : Action * Archetype) : EcsManager :=
  if archetype_in_use entry.2 (systems m) then m
  else set_archetypes (dpop entry.2 (archetypes m)) m.

Definition deregister_system (system : System) : M unit :=
  do m <- get_state;
  match dget (sys_ref system) (systems m) with
  | None => ret tt
  | Some actionset =>
      modify (set_systems (dpop (sys_ref system) (systems m)));;
      modify (λ m, fold_left drop_stale_archetype actionset m)
  end.

Definition create_entity : M Entity :=
  do m <- get_state;
  let entity := entity_id m in
  modify (set_entity_id (entity_id m + 1));;
  modify (λ m, set_entities ({[entity]} ∪ entities m) m);;
  ret entity.

(** [self.components[component_type][entity]], when both keys exist. *)
Definition stored (m : EcsManager) (entity component_type : nat)
  : option Component :=
  dget component_type (components m) ≫= dget entity.

(** The inner loop of [register_component]: the components of [entity] for
    every slot of the archetype, or nothing as soon as one is missing
    ([break]). *)
Definition gather (m : EcsManager) (entity : Entity) (archetype : Archetype)
  : option (list Component) :=
  mapM (stored m entity) archetype.

(** One round of the loop over [self.archetypes.items()] in
    [register_component]. *)
Definition refresh_bucket (m : EcsManager) (entity : Entity)
    (entry : Archetype * dict Entity (list Component))
  : Archetype * dict Entity (list Component) :=
  if dmem entity entry.2 then entry
  else match gather m entity entry.1 with
       | Some values => (entry.1, dset entity values entry.2)
       | None => entry
       end.

Definition unknown_entity (what : string) : Exception :=
  ValueError ("Attempted to " +:+ what +:+ " unknown entity").

Definition register_component (entity : Entity) (component : Component)
  : M Component :=
  do m <- get_state;
  if decide (entity ∈ entities m) then
    let component_type := cid component in
    modify (λ m, set_eid (<[oid component := entity]> (eid m)) m);;
    modify (λ m, if dmem component_type (components m) then m
                 else set_components (dset component_type [] (components m)) m);;
    do m <- get_state;
    let old_component := stored m entity component_type in
    modify (λ m, set_components
                   (dalter (dpop entity) component_type (components m)) m);;
    match old_component with
    | None =>
        modify (λ m, set_components
                  (dalter (dset entity component) component_type (components m)) m);;
        modify (λ m, set_archetypes
                  (refresh_bucket m entity <$> archetypes m) m);;
        ret component
    | Some old =>
        modify (λ m, set_components
                  (dalter (dset entity component) component_type (components m)) m);;
        ret old
    end
  else raise (unknown_entity "register component for").

Definition fetch_component (entity : Entity) (component_type : nat)
  : M (option Component) :=
  do m <- get_state;
  if decide (entity ∈ entities m) then
    match dget component_type (components m) with
    | None => ret None
    | Some registered =>
        match dget entity registered with
        | None => ret None
        | Some c => ret (Some c)
        end
    end
  else raise (unknown_entity "fetch component for").

(** One round of the loop over [self.archetypes.items()] in
    [deregister_component]. *)
Definition prune_bucket (entity : Entity) (component_type : nat)
    (entry : Archetype * dict Entity (list Component))
  : Archetype * dict Entity (list Component) :=
  if bool_decide (component_type ∈ entry.1) && dmem entity entry.2
  then (entry.1, dpop entity entry.2)
  else entry.

Definition deregister_component (entity : Entity) (component_type : nat)
  : M (option Component) :=
  do m <- get_state;
  if decide (entity ∈ entities m) then
    do found <- fetch_component entity component_type;
    match found with
    | Some c =>
        modify (λ m, set_archetypes
                  (prune_bucket entity component_type <$> archetypes m) m);;
        modify (λ m, set_components
                  (dalter (dpop entity) component_type (components m)) m);;
        ret (Some c)
    | None => ret None
    end
  else raise (unknown_entity "deregister component for").

(** The first loop of [destroy_entity]: the components of the entity, in
    the order of [self.components]. *)
Definition registered_components (m : EcsManager) (entity : Entity)
  : list Component :=
  omap (λ entry, dget entity entry.2) (components m).

Definition destroy_entity (entity : Entity) : M (list Component) :=
  do m <- get_state;
  if decide (entity ∈ entities m) then
    let registered := registered_components m entity in
    for_each registered (λ c, deregister_component entity (cid c);; ret tt);;
    do m <- get_state;
    (if decide (entity ∈ entities m)
     then modify (set_entities (entities m ∖ {[entity]}))
     else raise KeyError);;
    ret registered
  else raise (ValueError "Attempted to destroy unknown entity").

(** [fetch_archetype]: the rows of the bucket, in the order of the bucket. *)
Definition fetch_archetype (archetype : Archetype)
  : M (option (list (list Component))) :=
  do m <- get_state;
  match dget archetype (archetypes m) with
  | None => ret None
  | Some bucket => ret (Some (dvalues bucket))
  end.

Definition get_deltatime : M nat :=
  do m <- get_state; ret (deltatime m).
Definition pause : M unit := modify (set_deltatime 0).
Definition unpause : M unit := modify (set_deltatime 1).

(** ** The frame loop [process]

    The loop is instrumented with the trace of the action invocations it
    makes, so that "no further action is invoked" can be stated. *)

Record Invocation := {
  inv_tick : nat;                          (* the tick it happens in *)
  inv_system : nat;                        (* the system object *)
  inv_action : Action;
  inv_rows : list (list Component);        (* [list(component_sets.values())] *)
  inv_result : Result EcsContinuation;     (* what the action returned *)
  inv_after : EcsManager                   (* the manager when it returned *)
}.

Abbreviation LoopState := (EcsManager * list Invocation)%type.

(** How a loop body ends: falls through to the next round, executes
    [return], or lets an exception escape. *)
Inductive Flow :=
  | Proceed
  | Returned
  | Failed (e : Exception).

Inductive Outcome :=
  | ReturnedNoSystems     (* the guard before the loop *)
  | ReturnedStop          (* [return] after an action answered [Stop] *)
  | Escaped (e : Exception)
  | StillRunning.         (* the ticks granted to the model are used up *)

(** [for x in d.items(): body], where the body may change the manager.  The
    items are those of the dictionary when the loop starts; as in CPython,
    every advance of the iterator first compares the current size of the
    dictionary with its size at the start and raises [RuntimeError] when
    they differ.  (What an iteration does after an action has removed and
    added keys without changing the size is not fixed by the language; the
    model then goes on with the items of the start.) *)
Fixpoint iterate {A} (size : EcsManager → nat) (n : nat)
    (body : A → LoopState → Flow * LoopState)
    (items : list A) (s : LoopState) : Flow * LoopState :=
  if decide (size s.1 = n) then
    match items with
    | [] => (Proceed, s)
    | x :: rest =>
        match body x s with
        | (Proceed, s') => iterate size n body rest s'
        | stop => stop
        end
    end
  else (Failed (RuntimeError "dictionary changed size during iteration"), s).

Section frame_loop.
Context {Time : Type}.
(** [now k] is what the [k]-th call of [time.time()] returns,
    [elapsed current last scale] is [(current - last) * scale], and
    [invoke action dt rows] is the call [action(dt, manager, rows)]. *)
Variable now : nat → Time.
Variable elapsed : Time → Time → nat → Time.
Variable invoke : Action → Time → list (list Component) → M EcsContinuation.

(** The body of the innermost loop.  [component_sets] is the bucket object
    of the archetype, read again at every invocation; it is found under
    its key as long as no action has dropped that archetype. *)
Definition run_action (tick : nat) (dt : Time) (archetype : Archetype)
    (system : nat) (entry : Action * Archetype) (s : LoopState)
  : Flow * LoopState :=
  if decide (archetype = entry.2) then
    let rows := default [] (dvalues <$> dget archetype (archetypes s.1)) in
    let r := invoke entry.1 dt rows s.1 in
    let s' := (r.2, s.2 ++ [ {| inv_tick := tick; inv_system := system;
                                inv_action := entry.1; inv_rows := rows;
                                inv_result := r.1; inv_after := r.2 |} ]) in
    match r.1 with
    | Ok Stop => (Returned, s')
    | Ok Continue => (Proceed, s')
    | Raise e => (Failed e, s')
    end
  else (Proceed, s).

(** One pass of the [while True] body over archetypes, systems and
    actions.  An action set is never changed once its system is
    registered, so its loop needs no size check. *)
Definition run_tick (tick : nat) (dt : Time) (s : LoopState)
  : Flow * LoopState :=
  iterate (λ m, length (archetypes m)) (length (archetypes s.1))
    (λ bucket s,
       iterate (λ m, length (systems m)) (length (systems s.1))
         (λ sys s,
            iterate (λ _, 0) 0 (run_action tick dt bucket.1 sys.1) sys.2 s)
         (systems s.1) s)
    (archetypes s.1) s.

(** The [while True] loop, for at most [fuel] ticks; tick [k] makes the
    [k]-th call of [time.time()] (the call before the loop is number 0). *)
Fixpoint run_ticks (fuel : nat) (k : nat) (last_tick_time : Time)
    (s : LoopState) : Outcome * LoopState :=
  match fuel with
  | 0 => (StillRunning, s)
  | S fuel' =>
      let current_tick_time := now k in
      let dt := elapsed current_tick_time last_tick_time (deltatime s.1) in
      match run_tick k dt s with
      | (Proceed, s') => run_ticks fuel' (S k) current_tick_time s'
      | (Returned, s') => (ReturnedStop, s')
      | (Failed e, s') => (Escaped e, s')
      end
  end.

Definition process (fuel : nat) (m : EcsManager) : Outcome * LoopState :=
  if decide (length (systems m) = 0) then (ReturnedNoSystems, (m, []))
  else run_ticks fuel 1 (now 0) (m, []).
End frame_loop.

(** ** Sequences of calls on one manager *)

Inductive Call :=
  | CallRegisterSystem (system : System)
  | CallDeregisterSystem (system : System)
  | CallCreateEntity
  | CallRegisterComponent (entity : Entity) (component : Component)
  | CallFetchComponent (entity : Entity) (component_type : nat)
  | CallDeregisterComponent (entity : Entity) (component_type : nat)
  | CallDestroyEntity (entity : Entity)
  | CallFetchArchetype (archetype : Archetype)
  | CallPause
  | CallUnpause.

(** The manager after one call (an exception leaves it as it was when the
    exception was raised) and the entity id the call returned, if it was
    [create_entity]. *)
Definition call (c : Call) (m : EcsManager) : EcsManager * option Entity :=
  match c with
  | CallRegisterSystem s => ((register_system s m).2, None)
  | CallDeregisterSystem s => ((deregister_system s m).2, None)
  | CallCreateEntity =>
      match create_entity m with
      | (Ok e, m') => (m', Some e)
      | (Raise _, m') => (m', None)
      end
  | CallRegisterComponent e c => ((register_component e c m).2, None)
  | CallFetchComponent e t => ((fetch_component e t m).2, None)
  | CallDeregisterComponent e t => ((deregister_component e t m).2, None)
  | CallDestroyEntity e => ((destroy_entity e m).2, None)
  | CallFetchArchetype a => ((fetch_archetype a m).2, None)
  | CallPause => ((pause m).2, None)
  | CallUnpause => ((unpause m).2, None)
  end.

(** The manager after a sequence of calls, and the ids that its
    [create_entity] calls returned, in call order. *)
Fixpoint calls (cs : list Call) (m : EcsManager) : EcsManager * list Entity :=
  match cs with
  | [] => (m, [])
  | c :: cs' =>
      let r := call c m in
      let rs := calls cs' r.1 in
      (rs.1, from_option (λ e, [e]) [] r.2 ++ rs.2)
  end.

(** A manager that some sequence of calls builds from [EcsManager()]. *)
Definition reachable (m : EcsManager) : Prop :=
  ∃ cs, (calls cs new_manager).1 = m.

(** ** The methods as functions of the manager

    The state that a method leaves, written without the monad. *)

(** The component store after [register_component entity component]. *)
Definition installed (m : EcsManager) (entity : Entity) (component : Component)
  : dict nat (dict Entity Component) :=
  dalter (dset entity component) (cid component)
    (dalter (dpop entity) (cid component)
       (if dmem (cid component) (components m) then components m
        else dset (cid component) [] (components m))).

(** The manager after [deregister_component entity component_type] found a
    component to remove. *)
Definition deregistered (entity : Entity) (component_type : nat)
    (m : EcsManager) : EcsManager :=
  set_components (dalter (dpop entity) component_type (components m))
    (set_archetypes (prune_bucket entity component_type <$> archetypes m) m).

(** The loop of [destroy_entity] over the components it collected. *)
Definition deregister_step (entity : Entity) (m : EcsManager) (c : Component)
  : EcsManager :=
  match stored m entity (cid c) with
  | Some _ => deregistered entity (cid c) m
  | None => m
  end.

(** ** Consistency of the store and the index

    What every sequence of calls maintains: the component store has one
    inner mapping per component type, a component is stored under the id of
    its own class, and an entity that is in a bucket holds a component of
    every type of the bucket's archetype. *)

Record consistent (m : EcsManager) : Prop := {
  store_keys : NoDup (dkeys (components m));
  store_typed : ∀ e t c, stored m e t = Some c → cid c = t;
  bucket_sound : ∀ archetype bucket e t,
    (archetype, bucket) ∈ archetypes m → is_Some (dget e bucket) →
    t ∈ archetype → is_Some (stored m e t)
}.

(** ** The statements about [destroy_entity], [deregister_system] and
    pairs of components *)

(** What the design description says of [destroy_entity], for a manager
    [m] and a live entity [e]. *)
Definition destroy_entity_removes_everything (m : EcsManager) (e : Entity)
  : Prop :=
  ∃ m', destroy_entity e m
        = (Ok (omap (stored m e) (dkeys (components m))), m')
    ∧ (e ∉ entities m')
    ∧ (∀ t inner, (t, inner) ∈ components m' → dget e inner = None)
    ∧ (∀ archetype bucket,
         (archetype, bucket) ∈ archetypes m' → dget e bucket = None).

(** The same, with the buckets of the archetypes that name at least one
    component type. *)
Definition destroy_entity_removes (m : EcsManager) (e : Entity) : Prop :=
  ∃ m', destroy_entity e m
        = (Ok (omap (stored m e) (dkeys (components m))), m')
    ∧ (e ∉ entities m')
    ∧ (∀ t inner, (t, inner) ∈ components m' → dget e inner = None)
    ∧ (∀ archetype bucket,
         (archetype, bucket) ∈ archetypes m' → archetype ≠ [] →
         dget e bucket = None).

(** Some action of a registered system other than [system] is bound to
    [archetype]. *)
Definition bound_elsewhere (m : EcsManager) (system : nat)
    (archetype : Archetype) : Prop :=
  ∃ other actionset action,
    other ≠ system ∧ (other, actionset) ∈ systems m
    ∧ (action, archetype) ∈ actionset.

(** The archetype names the types of [A] and [B] and no other type. *)
Definition requires_exactly (archetype : Archetype) (A B : Component) : Prop :=
  ∀ t, t ∈ archetype ↔ t = cid A ∨ t = cid B.

(** The bucket of [archetype] has a row for [e]; the row holds, slot by
    slot, what the component store currently holds for [e]; and the store
    holds [A] and [B] for [e]. *)
Definition holds_current_row (m : EcsManager) (e : Entity)
    (archetype : Archetype) (A B : Component) : Prop :=
  ∃ bucket row,
    dget archetype (archetypes m) = Some bucket
    ∧ dget e bucket = Some row
    ∧ gather m e archetype = Some row
    ∧ stored m e (cid A) = Some A ∧ stored m e (cid B) = Some B.

Definition absent_from_bucket (m : EcsManager) (e : Entity)
    (archetype : Archetype) : Prop :=
  ∃ bucket, dget archetype (archetypes m) = Some bucket ∧ dget e bucket = None.

(** What the design description says of registering [A] and [B] for [e],
    in either order, and of deregistering one of the two types next. *)
Definition registered_pair_in_bucket (m : EcsManager) (e : Entity)
    (A B : Component) (archetype : Archetype) : Prop :=
  ∀ X Y, (X = A ∧ Y = B) ∨ (X = B ∧ Y = A) →
    let m2 := (register_component e Y (register_component e X m).2).2 in
    holds_current_row m2 e archetype A B
    ∧ ∀ t, t = cid A ∨ t = cid B →
        absent_from_bucket (deregister_component e t m2).2 e archetype.

(** ** Traces of the frame loop *)

(** No invocation of the trace answered [Stop]. *)
Definition no_stop (trace : list Invocation) : Prop :=
  Forall (λ inv, inv_result inv ≠ Ok Stop) trace.

(** The last invocation of the trace answered [Stop], none before it did,
    and the manager is the one that invocation left. *)
Definition stopped_at_last (s : LoopState) : Prop :=
  ∃ pre inv, s.2 = pre ++ [inv] ∧ no_stop pre
    ∧ inv_result inv = Ok Stop ∧ inv_after inv = s.1.

Definition flow_ok (r : Flow * LoopState) : Prop :=
  match r.1 with
  | Returned => stopped_at_last r.2
  | _ => no_stop r.2.2
  end.

Definition outcome_ok (r : Outcome * LoopState) : Prop :=
  match r.1 with
  | ReturnedStop => stopped_at_last r.2
  | _ => no_stop r.2.2
  end.

(** ** Concrete managers

    Component classes and systems of the game ([components.py],
    [systems.py]), with the ids that [AutoId] gives them in declaration
    order, and a few component objects. *)

Definition Transform2D : ComponentClass := {| class_cid := 0 |}.
Definition Collider2D : ComponentClass := {| class_cid := 1 |}.
Definition Velocity2D : ComponentClass := {| class_cid := 3 |}.

Definition transform_a : Component := {| cls := Transform2D; oid := 100 |}.
Definition transform_b : Component := {| cls := Transform2D; oid := 101 |}.
Definition collider_a : Component := {| cls := Collider2D; oid := 102 |}.
Definition velocity_a : Component := {| cls := Velocity2D; oid := 103 |}.

(** [Collider2DSystem()] (twice) and [Physics2DSystem()]; the actions 1, 2
    and 3 name the bound method [process] of each. *)
Definition collider_system : System :=
  {| sys_ref := 1; sid := 1; actions := [(1, [Transform2D; Collider2D])] |}.
Definition collider_system' : System :=
  {| sys_ref := 2; sid := 1; actions := [(2, [Transform2D; Collider2D])] |}.
Definition physics_system : System :=
  {| sys_ref := 3; sid := 3; actions := [(3, [Transform2D; Velocity2D])] |}.
(** A system whose only action asks for no component type at all. *)
Definition bare_system : System :=
  {| sys_ref := 4; sid := 4; actions := [(4, [])] |}.

(** Two systems, then an entity with a transform, a collider and a
    velocity. *)
Definition game_calls : list Call :=
  [CallRegisterSystem collider_system;
   CallRegisterSystem physics_system;
   CallCreateEntity;
   CallRegisterComponent 0 transform_a;
   CallRegisterComponent 0 collider_a;
   CallRegisterComponent 0 velocity_a].
Abbreviation game_manager := (calls game_calls new_manager).1.

(** A system with an empty archetype, then an entity with a transform. *)
Definition bare_calls : list Call :=
  [CallRegisterSystem bare_system;
   CallCreateEntity;
   CallRegisterComponent 0 transform_a].
Abbreviation bare_manager := (calls bare_calls new_manager).1.

(** Both collider systems and the physics system, and an entity that is in
    the bucket of each of the two archetypes. *)
Definition shared_calls : list Call :=
  [CallRegisterSystem collider_system;
   CallRegisterSystem collider_system';
   CallRegisterSystem physics_system;
   CallCreateEntity;
   CallRegisterComponent 0 transform_a;
   CallRegisterComponent 0 collider_a;
   CallRegisterComponent 0 velocity_a].
Abbreviation shared_manager := (calls shared_calls new_manager).1.

(** A collider system and an entity without components. *)
Definition fresh_calls : list Call :=
  [CallRegisterSystem collider_system; CallCreateEntity].
Abbreviation fresh_manager := (calls fresh_calls new_manager).1.

(** A collider system and an entity that already has a transform. *)
Definition held_calls : list Call :=
  [CallRegisterSystem collider_system;
   CallCreateEntity;
   CallRegisterComponent 0 transform_a].
Abbreviation held_manager := (calls held_calls new_manager).1.

(** An entity gets its components first, the system is registered next. *)
Definition late_calls : list Call :=
  [CallCreateEntity;
   CallRegisterComponent 0 transform_a;
   CallRegisterComponent 0 collider_a;
   CallRegisterSystem collider_system].
Abbreviation late_manager := (calls late_calls new_manager).1.

(** The only system bound to an archetype is deregistered and registered
    again while an entity holds the components. *)
Definition again_calls : list Call :=
  [CallRegisterSystem collider_system;
   CallCreateEntity;
   CallRegisterComponent 0 transform_a;
   CallRegisterComponent 0 collider_a;
   CallDeregisterSystem collider_system;
   CallRegisterSystem collider_system].
Abbreviation again_manager := (calls again_calls new_manager).1.

(** A collider system, an entity with a transform and a collider, and a
    second entity with a transform of its own. *)
Definition pair_calls : list Call :=
  [CallRegisterSystem collider_system;
   CallCreateEntity;
   CallRegisterComponent 0 transform_a;
   CallRegisterComponent 0 collider_a;
   CallCreateEntity;
   CallRegisterComponent 1 transform_b].
Abbreviation pair_manager := (calls pair_calls new_manager).1.

(** An action table for [shared_manager]: the first collider system pauses
    the game at its first invocation and answers [Stop] once the game is
    paused; the other actions answer [Continue]. *)
Definition pausing_invoke (action : Action) (dt : nat)
    (rows : list (list Component)) : M EcsContinuation :=
  match action with
  | 1 => do scale <- get_deltatime;
         if decide (scale = 0) then ret Stop else pause;; ret Continue
  | _ => ret Continue
  end.

(** ** More invariants of the manager *)

(** Components are stored for live entities only, and the ids of the live
    entities are below the id counter. *)
Record alive (m : EcsManager) : Prop := {
  store_live : ∀ e t c, stored m e t = Some c → e ∈ entities m;
  ids_below : ∀ e, e ∈ entities m → e < entity_id m
}.

(** Every row of every bucket has one component per slot of the archetype,
    of the type of that slot. *)
Definition rows_typed (m : EcsManager) : Prop :=
  ∀ archetype bucket e row,
    (archetype, bucket) ∈ archetypes m → dget e bucket = Some row →
    Forall2 (λ t c, cid c = t) archetype row.

(** The argument of [register_system] is a system whose [actions()] is a
    dictionary: no action occurs twice in it. *)
Definition proper_call (c : Call) : Prop :=
  match c with
  | CallRegisterSystem s => NoDup (dkeys (actions s))
  | _ => True
  end.

(** A manager built from [EcsManager()] by calls on such systems. *)
Definition built (m : EcsManager) : Prop :=
  ∃ cs, Forall proper_call cs ∧ (calls cs new_manager).1 = m.

(** A system is registered once, and the archetypes that have a bucket are
    those that an action of a registered system is bound to. *)
Record indexed (m : EcsManager) : Prop := {
  systems_keys : NoDup (dkeys (systems m));
  buckets_bound : ∀ a,
    is_Some (dget a (archetypes m)) → archetype_in_use a (systems m) = true;
  bound_buckets : ∀ a,
    archetype_in_use a (systems m) = true → is_Some (dget a (archetypes m))
}.

(** The action set that [register_system] stores for a system. *)
Definition bindings (acts : dict Action (list ComponentClass))
  : dict Action Archetype :=
  (λ x, (x.1, flatten_archetype x.2)) <$> acts.

(** ** The lifecycle hooks [setup] and [cleanup] *)

(** [for x in d.items(): body(x)] inside a function on the manager, with
    the size check that every advance of a dictionary iterator makes. *)
Fixpoint for_items {A} (size : EcsManager → nat) (n : nat) (items : list A)
    (body : A → M unit) : M unit :=
  λ m, if decide (size m = n) then
         match items with
         | [] => ret tt m
         | x :: rest => (body x;; for_items size n rest body) m
         end
       else raise (RuntimeError "dictionary changed size during iteration") m.

Section lifecycle.
(** [setup_hook k] and [cleanup_hook k] are the calls
    [system.setup(manager, screen)] and [system.cleanup(manager, screen)]
    on the system object of identity [k], [system_object k] is that
    object, and [set_order s] is the order in which Python iterates over
    the set [s]. *)
Variable setup_hook cleanup_hook : nat → M unit.
Variable system_object : nat → System.
Variable set_order : gset nat → list nat.

Definition setup : M unit :=
  do m <- get_state;
  for_items (λ m, length (systems m)) (length (systems m)) (systems m)
    (λ entry, setup_hook entry.1).

Definition cleanup : M unit :=
  do m <- get_state;
  for_items (λ m, length (systems m)) (length (systems m)) (systems m)
    (λ entry, cleanup_hook entry.1);;
  do m <- get_state;
  let pending_systems := dkeys (systems m) in
  for_each pending_systems (λ system, deregister_system (system_object system));;
  do m <- get_state;
  let pending_entities := set_order (entities m) in
  for_each pending_entities (λ entity, destroy_entity entity;; ret tt).
End lifecycle.

(** ** The schedule of a tick and the time scale *)

(** The actions that one pass over the archetypes, the systems and their
    actions calls, in order: for every bucket in creation order, for every
    system in registration order, the actions of the system that are bound
    to the archetype of the bucket. *)
Definition schedule (m : EcsManager) : list (nat * Action) :=
  bucket ← archetypes m;
  system ← systems m;
  entry ← system.2;
  if decide (bucket.1 = entry.2) then [(system.1, entry.1)] else [].

(** The calls that the actions of the game make on the manager: all but
    [register_system] and [deregister_system]. *)
Definition entity_call (c : Call) : Prop :=
  match c with
  | CallRegisterSystem _ | CallDeregisterSystem _ => False
  | _ => True
  end.

(** An action table whose actions answer [Continue] and use the manager
    through such calls only. *)
Definition quiet (invoke : Action → nat → list (list Component) → M EcsContinuation)
  : Prop :=
  ∀ a dt rows m,
    ∃ cs, Forall entity_call cs
          ∧ invoke a dt rows m = (Ok Continue, (calls cs m).1).

Definition who (inv : Invocation) : nat * Action :=
  (inv_system inv, inv_action inv).

(** The last [pause] or [unpause] of a sequence of calls, if any. *)
Fixpoint paused_by (cs : list Call) (paused : bool) : bool :=
  match cs with
  | [] => paused
  | CallPause :: cs' => paused_by cs' true
  | CallUnpause :: cs' => paused_by cs' false
  | _ :: cs' => paused_by cs' paused
  end.

(** ** Class ids ([AutoId] in [common.py]) *)

(** The two class attributes of [AutoId]. *)
Record AutoId := { _component_id : nat; _system_id : nat }.

Inductive Decoration := DecorateComponent | DecorateSystem.

(** [AutoId.component] and [AutoId.system]: the id given to the decorated
    class, and the counters afterwards. *)
Definition component (a : AutoId) : nat * AutoId :=
  (_component_id a,
   {| _component_id := _component_id a + 1; _system_id := _system_id a |}).
Definition system (a : AutoId) : nat * AutoId :=
  (_system_id a,
   {| _component_id := _component_id a; _system_id := _system_id a + 1 |}).

(** The ids that a sequence of class definitions gets, in order. *)
Fixpoint decorate (ds : list Decoration) (a : AutoId)
  : list (Decoration * nat) :=
  match ds with
  | [] => []
  | DecorateComponent :: ds' =>
      (DecorateComponent, (component a).1) :: decorate ds' (component a).2
  | DecorateSystem :: ds' =>
      (DecorateSystem, (system a).1) :: decorate ds' (system a).2
  end.

Definition cids (r : list (Decoration * nat)) : list nat :=
  omap (λ x, match x.1 with DecorateComponent => Some x.2 | _ => None end) r.
Definition sids (r : list (Decoration * nat)) : list nat :=
  omap (λ x, match x.1 with DecorateSystem => Some x.2 | _ => None end) r.

(** ** The high-score table ([start_game] in [main.py]) *)

(** [max(scores.items(), key=lambda t: t[1])]: the first of the entries
    with the highest score; there is none in an empty dictionary
    ([ValueError]). *)
Fixpoint highest (scores : dict string Z) : option (string * Z) :=
  match scores with
  | [] => None
  | entry :: rest =>
      match highest rest with
      | Some other =>
          if decide (entry.2 < other.2)%Z then Some other else Some entry
      | None => Some entry
      end
  end.

(** The loop [for _ in range(n)]: move the highest entry of [scores] to the
    end of [highscores]. *)
Fixpoint select_highscores (n : nat) (scores highscores : dict string Z)
  : option (dict string Z) :=
  match n with
  | 0 => Some highscores
  | S n' =>
      entry ← highest scores;
      score ← dget entry.1 scores;
      select_highscores n' (dpop entry.1 scores) (dset entry.1 score highscores)
  end.

(** [scores[name] = max(score, scores.get(name, 0))] *)
Definition record_score (name : string) (score : Z) (scores : dict string Z)
  : dict string Z :=
  dset name (Z.max score (default 0%Z (dget name scores))) scores.

(** The table that [start_game] saves after a game. *)
Definition highscores_after (name : string) (score : Z)
    (scores : dict string Z) : option (dict string Z) :=
  let scores := record_score name score scores in
  let entries := length scores in
  select_highscores (if decide (entries < 10) then entries else 10) scores [].

(** ** Keyboard input ([UserInputSystem] in [systems.py]) *)

(** The part of the state of a [UserInputSystem] that the key handlers use. *)
Record UserInputSystem := {
  input_bitmask : Z;
  easter_egg_idx : Z;
  completed_easter_egg : bool
}.

(** The state that [setup] establishes. *)
Definition after_setup : UserInputSystem :=
  {| input_bitmask := 0; easter_egg_idx := 0; completed_easter_egg := false |}.

(** [input_masks]: 0b00000001, 0b00000010, ... *)
Definition input_masks : dict string Z :=
  [("left", 1); ("right", 2); ("up", 4); ("down", 8); ("fire_primary", 16);
   ("fire_secondary", 32); ("menu", 64); ("boss", 128)]%Z.

(** [input_reset_masks]: 0b11111101, 0b11111110, 0b11110111, 0b11111011 and
    0b11111111 four times. *)
Definition input_reset_masks : dict string Z :=
  [("left", 253); ("right", 254); ("up", 247); ("down", 251);
   ("fire_primary", 255); ("fire_secondary", 255); ("menu", 255);
   ("boss", 255)]%Z.

Definition controls : dict string string :=
  [("escape", "menu"); ("space", "boss"); ("a", "left"); ("d", "right");
   ("w", "up"); ("s", "down"); ("j", "fire_primary"); ("k", "fire_secondary")].

Definition easter_egg : list string :=
  ["up"; "up"; "down"; "down"; "left"; "right"; "left"; "right"; "b"; "a"].

Definition inverse_bitmask : Z := 255.

(** [l[i]] for a Python list: a negative index counts from the end, an
    index out of range is an [IndexError] (no value). *)
Definition index {A} (l : list A) (i : Z) : option A :=
  if decide (0 ≤ i)%Z then l !! Z.to_nat i
  else if decide (- Z.of_nat (length l) ≤ i)%Z
       then l !! Z.to_nat (Z.of_nat (length l) + i)
       else None.

(** [check_mask]; an event that has no mask is a [KeyError] (no value). *)
Definition check_mask (event : string) (st : UserInputSystem) : option bool :=
  mask ← dget event input_masks;
  Some (bool_decide (Z.land (input_bitmask st) mask = mask)).

(** [move_next_code_elem] *)
Definition move_next_code_elem (key : string) (st : UserInputSystem)
  : option UserInputSystem :=
  if decide (easter_egg_idx st = -1)%Z then Some st
  else
    expected ← index easter_egg (easter_egg_idx st);
    if decide (key ≠ expected) then
      Some {| input_bitmask := input_bitmask st; easter_egg_idx := 0;
              completed_easter_egg := completed_easter_egg st |}
    else
      let idx := (easter_egg_idx st + 1)%Z in
      if decide (idx = Z.of_nat (length easter_egg)) then
        Some {| input_bitmask := input_bitmask st; easter_egg_idx := -1;
                completed_easter_egg := true |}
      else
        Some {| input_bitmask := input_bitmask st; easter_egg_idx := idx;
                completed_easter_egg := completed_easter_egg st |}.

Section user_input.
(** [lower] is [str.lower]. *)
Variable lower : string → string.

(** The control event that a key is bound to, under its own name or under
    its lower-case name. *)
Definition binding_of (keysym : string) : option string :=
  if dmem keysym controls then dget keysym controls
  else if dmem (lower keysym) controls then dget (lower keysym) controls
  else None.

Definition set_bitmask (bits : Z) (st : UserInputSystem) : UserInputSystem :=
  {| input_bitmask := bits; easter_egg_idx := easter_egg_idx st;
     completed_easter_egg := completed_easter_egg st |}.

Definition handle_key_pressed (keysym : string) (st : UserInputSystem)
  : option UserInputSystem :=
  st ← move_next_code_elem (lower keysym) st;
  match binding_of keysym with
  | None => Some st
  | Some binding =>
      if dmem binding input_masks && dmem binding input_reset_masks then
        reset ← dget binding input_reset_masks;
        mask ← dget binding input_masks;
        Some (set_bitmask (Z.lor (Z.land (input_bitmask st) reset) mask) st)
      else Some st
  end.

Definition handle_key_released (keysym : string) (st : UserInputSystem)
  : option UserInputSystem :=
  match binding_of keysym with
  | None => Some st
  | Some binding =>
      if dmem binding input_masks && dmem binding input_reset_masks then
        mask ← dget binding input_masks;
        Some (set_bitmask
                (Z.land (input_bitmask st) (Z.lxor inverse_bitmask mask)) st)
      else Some st
  end.

Inductive KeyEvent :=
  | KeyPress (keysym : string)
  | KeyRelease (keysym : string).

(** The handlers on a sequence of key events, in order. *)
Fixpoint handle_keys (events : list KeyEvent) (st : UserInputSystem)
  : option UserInputSystem :=
  match events with
  | [] => Some st
  | KeyPress keysym :: rest => handle_key_pressed keysym st ≫= handle_keys rest
  | KeyRelease keysym :: rest => handle_key_released keysym st ≫= handle_keys rest
  end.
End user_input.

(** The bitmask fits in eight bits and holds no two opposite directions. *)
Definition steady_bits (bits : Z) : Prop :=
  (0 ≤ bits < 256 ∧ Z.land bits 3 ≠ 3 ∧ Z.land bits 12 ≠ 12)%Z.

(** The code index is -1 or an index into the code. *)
Definition steady (st : UserInputSystem) : Prop :=
  steady_bits (input_bitmask st)
  ∧ (easter_egg_idx st = -1 ∨ 0 ≤ easter_egg_idx st < 10)%Z.

(** The keys of a list given to [move_next_code_elem] one after the other. *)
Fixpoint type_keys (keys : list string) (st : UserInputSystem)
  : option UserInputSystem :=
  match keys with
  | [] => Some st
  | key :: rest => move_next_code_elem key st ≫= type_keys rest
  end.

(** ** Facts about dictionaries *)

Section dict_facts.
Context {K V : Type} `{EqDecision K}.
Implicit Types (k : K) (v : V) (d : dict K V).

Lemma dmem_true k d : dmem k d = true ↔ is_Some (dget k d).
Proof.
  unfold dmem. destruct (dget k d); split; intros Hx; eauto.
  - discriminate.
  - by destruct Hx.
Qed.

Lemma dmem_false k d : dmem k d = false ↔ dget k d = None.
Proof. unfold dmem. by destruct (dget k d). Qed.

Lemma dget_dset_eq k v d : dget k (dset k v d) = Some v.
Proof.
  induction d as [|[k' v'] d IH]; simpl.
  - by rewrite decide_True.
  - destruct (decide (k' = k)) as [->|Hne]; simpl.
    + by rewrite decide_True.
    + by rewrite decide_False.
Qed.

Lemma dget_dset_ne k k' v d : k ≠ k' → dget k' (dset k v d) = dget k' d.
Proof.
  intros Hne. induction d as [|[k0 v0] d IH]; simpl.
  - by rewrite decide_False.
  - destruct (decide (k0 = k)) as [->|Hk]; simpl.
    + by rewrite !decide_False.
    + by rewrite IH.
Qed.

Lemma dget_dpop_eq k d : dget k (dpop k d) = None.
Proof.
  unfold dpop. induction d as [|[k' v'] d IH]; [done|].
  rewrite filter_cons. simpl. destruct (decide (k' ≠ k)) as [Hne|Heq]; simpl.
  - by rewrite decide_False.
  - done.
Qed.

Lemma dget_dpop_ne k k' d : k ≠ k' → dget k' (dpop k d) = dget k' d.
Proof.
  intros Hne. unfold dpop. induction d as [|[k0 v0] d IH]; [done|].
  rewrite filter_cons. simpl. destruct (decide (k0 ≠ k)) as [Hk|Hk]; simpl.
  - by rewrite IH.
  - apply dec_stable in Hk as ->. by rewrite decide_False.
Qed.

Lemma dpop_absent k d : dget k d = None → dpop k d = d.
Proof.
  unfold dpop. induction d as [|[k' v'] d IH]; [done|]. simpl.
  destruct (decide (k' = k)) as [->|Hne]; [done|]. intros Hd.
  rewrite filter_cons. simpl. rewrite decide_True by done. by rewrite IH.
Qed.

Lemma dget_dalter (f : V → V) k k' d :
  dget k' (dalter f k d) = if decide (k = k') then f <$> dget k' d else dget k' d.
Proof.
  unfold dalter. induction d as [|[k0 v0] d IH]; simpl.
  - by destruct (decide (k = k')).
  - destruct (decide (k0 = k)) as [->|Hk]; simpl.
    + by destruct (decide (k = k')).
    + destruct (decide (k0 = k')) as [->|Hk']; [|done].
      by rewrite decide_False.
Qed.

Lemma dget_dalter_eq (f : V → V) k d :
  dget k (dalter f k d) = f <$> dget k d.
Proof. by rewrite dget_dalter, decide_True. Qed.

Lemma dget_dalter_ne (f : V → V) k k' d :
  k ≠ k' → dget k' (dalter f k d) = dget k' d.
Proof. intros. by rewrite dget_dalter, decide_False. Qed.

Lemma dkeys_dalter (f : V → V) k d : dkeys (dalter f k d) = dkeys d.
Proof.
  unfold dkeys, dalter. rewrite <- list_fmap_compose.
  apply list_fmap_ext. intros _ [k0 v0] _. simpl.
  by destruct (decide (k0 = k)).
Qed.

Lemma dget_Some_elem k v d : dget k d = Some v → (k, v) ∈ d.
Proof.
  induction d as [|[k' v'] d IH]; [done|]. simpl.
  destruct (decide (k' = k)) as [->|Hne].
  - intros [= ->]. left.
  - intros Hd. right. by apply IH.
Qed.

Lemma dget_None_keys k d : dget k d = None ↔ k ∉ dkeys d.
Proof.
  unfold dkeys. induction d as [|[k' v'] d IH]; simpl.
  - split; [intros _; apply not_elem_of_nil | done].
  - rewrite not_elem_of_cons. destruct (decide (k' = k)) as [->|Hne].
    + split; [done | intros [? _]; done].
    + rewrite IH. split; [intros ?; split; [congruence | done] | by intros [_ ?]].
Qed.

Lemma elem_NoDup_dget k v d : NoDup (dkeys d) → (k, v) ∈ d → dget k d = Some v.
Proof.
  unfold dkeys. induction d as [|[k' v'] d IH]; simpl.
  - intros _ Hin. by apply elem_of_nil in Hin.
  - intros Hnd Hin. apply NoDup_cons in Hnd as [Hk' Hnd].
    apply elem_of_cons in Hin as [[= -> ->]|Hin].
    + by rewrite decide_True.
    + destruct (decide (k' = k)) as [->|Hne]; [|by apply IH].
      exfalso. apply Hk'. apply list_elem_of_fmap. by exists (k, v).
Qed.

Lemma dkeys_dset k v d :
  dkeys (dset k v d) = if dmem k d then dkeys d else dkeys d ++ [k].
Proof.
  unfold dkeys, dmem. induction d as [|[k' v'] d IH]; [done|]. csimpl.
  destruct (decide (k' = k)) as [->|Hne]; [done|]. csimpl. rewrite IH.
  by destruct (dget k d).
Qed.

Lemma NoDup_dkeys_dset k v d : NoDup (dkeys d) → NoDup (dkeys (dset k v d)).
Proof.
  intros Hnd. rewrite dkeys_dset. destruct (dmem k d) eqn:Hm; [done|].
  apply dmem_false, dget_None_keys in Hm.
  apply NoDup_app. split_and!; [done | | apply NoDup_singleton].
  intros x Hx Hx'. apply list_elem_of_singleton in Hx' as ->. done.
Qed.

Lemma NoDup_dkeys_dpop k d : NoDup (dkeys d) → NoDup (dkeys (dpop k d)).
Proof.
  unfold dkeys, dpop. induction d as [|[k' v'] d IH]; [done|]. simpl.
  intros Hnd. apply NoDup_cons in Hnd as [Hk' Hnd].
  rewrite filter_cons. simpl. destruct (decide (k' ≠ k)); [|by apply IH].
  simpl. apply NoDup_cons. split; [|by apply IH].
  intros Hin. apply Hk'. apply list_elem_of_fmap in Hin as [[k0 v0] [-> Hin]].
  apply list_elem_of_filter in Hin as [_ Hin].
  apply list_elem_of_fmap. by exists (k0, v0).
Qed.
End dict_facts.

(** ** What the methods compute on a live and on an unknown entity *)

Lemma stored_components m m' e t :
  components m' = components m → stored m' e t = stored m e t.
Proof. unfold stored. by intros ->. Qed.

Lemma dget_installed_eq m e c :
  dget (cid c) (installed m e c)
  = Some (dset e c (dpop e (default [] (dget (cid c) (components m))))).
Proof.
  unfold installed. rewrite !dget_dalter_eq.
  destruct (dmem (cid c) (components m)) eqn:Hm.
  - apply dmem_true in Hm as [inner ->]. done.
  - apply dmem_false in Hm. by rewrite dget_dset_eq, Hm.
Qed.

Lemma dget_installed_ne m e c t :
  cid c ≠ t → dget t (installed m e c) = dget t (components m).
Proof.
  intros Hne. unfold installed. rewrite !dget_dalter_ne by done.
  destruct (dmem (cid c) (components m)); [done|]. by rewrite dget_dset_ne.
Qed.

Lemma register_component_live m e c :
  e ∈ entities m →
  register_component e c m =
    let m' := set_components (installed m e c)
                (set_eid (<[oid c := e]> (eid m)) m) in
    match stored m e (cid c) with
    | None => (Ok c, set_archetypes (refresh_bucket m' e <$> archetypes m) m')
    | Some old => (Ok old, m')
    end.
Proof.
  intros Hlive. unfold register_component, bind, get_state, modify, ret.
  rewrite decide_True by done. simpl.
  assert (stored
    (if dmem (cid c) (components m)
     then set_eid (<[oid c:=e]> (eid m)) m
     else set_components (dset (cid c) [] (components m))
            (set_eid (<[oid c:=e]> (eid m)) m)) e (cid c)
    = stored m e (cid c)) as ->.
  { unfold stored. destruct (dmem (cid c) (components m)) eqn:Hm; [done|].
    simpl. apply dmem_false in Hm. by rewrite dget_dset_eq, Hm. }
  unfold installed.
  destruct (stored m e (cid c)); destruct (dmem (cid c) (components m)); done.
Qed.

Lemma register_component_unknown m e c :
  e ∉ entities m →
  register_component e c m
  = (Raise (ValueError "Attempted to register component for unknown entity"), m).
Proof.
  intros Hdead. unfold register_component, bind, get_state, raise.
  by rewrite decide_False.
Qed.

Lemma fetch_component_live m e t :
  e ∈ entities m → fetch_component e t m = (Ok (stored m e t), m).
Proof.
  intros Hlive. unfold fetch_component, bind, get_state, ret, stored.
  rewrite decide_True by done.
  destruct (dget t (components m)) as [inner|]; [|done]. simpl.
  by destruct (dget e inner).
Qed.

Lemma deregister_component_live m e t :
  e ∈ entities m →
  deregister_component e t m =
    match stored m e t with
    | Some c => (Ok (Some c), deregistered e t m)
    | None => (Ok None, m)
    end.
Proof.
  intros Hlive. unfold deregister_component. unfold bind at 1. unfold get_state.
  rewrite decide_True by done. unfold bind at 1.
  rewrite fetch_component_live by done. by destruct (stored m e t).
Qed.

Lemma deregister_step_entities e m c :
  entities (deregister_step e m c) = entities m.
Proof. unfold deregister_step. by destruct (stored m e (cid c)). Qed.

Lemma deregister_all_entities e cs m :
  entities (fold_left (deregister_step e) cs m) = entities m.
Proof.
  revert m. induction cs as [|c cs IH]; intros m; [done|]. simpl.
  by rewrite IH, deregister_step_entities.
Qed.

Lemma for_each_deregister e cs m :
  e ∈ entities m →
  for_each cs (λ c, deregister_component e (cid c);; ret tt) m
  = (Ok tt, fold_left (deregister_step e) cs m).
Proof.
  revert m. induction cs as [|c cs IH]; intros m Hlive; [done|].
  simpl. unfold bind at 1. unfold bind at 1.
  rewrite deregister_component_live by done.
  assert (e ∈ entities (deregister_step e m c)) as Hlive'
    by by rewrite deregister_step_entities.
  apply IH in Hlive'. unfold deregister_step in *.
  by destruct (stored m e (cid c)).
Qed.

Lemma destroy_entity_live m e :
  e ∈ entities m →
  destroy_entity e m =
    let m' := fold_left (deregister_step e) (registered_components m e) m in
    (Ok (registered_components m e), set_entities (entities m ∖ {[e]}) m').
Proof.
  intros Hlive. unfold destroy_entity. unfold bind at 1. unfold get_state at 1.
  rewrite decide_True by done. unfold bind at 1.
  rewrite for_each_deregister by done.
  unfold bind, get_state, modify, ret. simpl.
  rewrite decide_True by by rewrite deregister_all_entities.
  by rewrite deregister_all_entities.
Qed.

Lemma destroy_entity_unknown m e :
  e ∉ entities m →
  destroy_entity e m
  = (Raise (ValueError "Attempted to destroy unknown entity"), m).
Proof.
  intros Hdead. unfold destroy_entity, bind, get_state, raise.
  by rewrite decide_False.
Qed.

Lemma deregister_component_unknown m e t :
  e ∉ entities m →
  deregister_component e t m
  = (Raise (ValueError "Attempted to deregister component for unknown entity"), m).
Proof.
  intros Hdead. unfold deregister_component, bind, get_state, raise.
  by rewrite decide_False.
Qed.

Lemma fetch_component_unknown m e t :
  e ∉ entities m →
  fetch_component e t m
  = (Raise (ValueError "Attempted to fetch component for unknown entity"), m).
Proof.
  intros Hdead. unfold fetch_component, bind, get_state, raise.
  by rewrite decide_False.
Qed.

Lemma fetch_archetype_frame a m : (fetch_archetype a m).2 = m.
Proof.
  unfold fetch_archetype, bind, get_state, ret.
  by destruct (dget a (archetypes m)).
Qed.

(** The manager after [register_system] of a system that was not
    registered, and after [deregister_system] of one that was. *)
Lemma register_system_state s m :
  (register_system s m).2 =
    if dmem (sys_ref s) (systems m) then m
    else fold_left (register_action (sys_ref s)) (actions s)
           (set_systems (dset (sys_ref s) [] (systems m)) m).
Proof.
  unfold register_system, bind, get_state, modify, ret.
  by destruct (dmem (sys_ref s) (systems m)).
Qed.

Lemma deregister_system_state s m :
  (deregister_system s m).2 =
    match dget (sys_ref s) (systems m) with
    | None => m
    | Some actionset =>
        fold_left drop_stale_archetype actionset
          (set_systems (dpop (sys_ref s) (systems m)) m)
    end.
Proof.
  unfold deregister_system, bind, get_state, modify, ret.
  by destruct (dget (sys_ref s) (systems m)).
Qed.

(** ** What each method leaves alone *)

Lemma register_actions_frame sref acts m :
  let m' := fold_left (register_action sref) acts m in
  entity_id m' = entity_id m ∧ entities m' = entities m
  ∧ components m' = components m ∧ deltatime m' = deltatime m
  ∧ eid m' = eid m.
Proof.
  revert m. induction acts as [|a acts IH]; intros m; [done|]. simpl.
  destruct (IH (register_action sref m a)) as (-> & -> & -> & -> & ->).
  unfold register_action. simpl.
  by destruct (dmem _ _).
Qed.

Lemma drop_stale_frame acts m :
  let m' := fold_left drop_stale_archetype acts m in
  entity_id m' = entity_id m ∧ entities m' = entities m
  ∧ components m' = components m ∧ deltatime m' = deltatime m
  ∧ eid m' = eid m ∧ systems m' = systems m.
Proof.
  revert m. induction acts as [|a acts IH]; intros m; [done|]. simpl.
  destruct (IH (drop_stale_archetype m a)) as (-> & -> & -> & -> & -> & ->).
  unfold drop_stale_archetype. by destruct (archetype_in_use _ _).
Qed.

Lemma deregister_all_entity_id e cs m :
  entity_id (fold_left (deregister_step e) cs m) = entity_id m.
Proof.
  revert m. induction cs as [|c cs IH]; intros m; [done|]. simpl.
  rewrite IH. unfold deregister_step. by destruct (stored m e (cid c)).
Qed.

(** Only [create_entity] changes the id counter, and it hands out the
    counter's value before incrementing it. *)
Lemma call_entity_id c m :
  match (call c m).2 with
  | Some e => e = entity_id m ∧ entity_id (call c m).1 = S (entity_id m)
  | None => entity_id (call c m).1 = entity_id m
  end.
Proof.
  destruct c as [s|s| |e c|e t|e t|e|a| |]; simpl.
  - rewrite register_system_state. destruct (dmem _ _); [done|].
    by destruct (register_actions_frame (sys_ref s) (actions s)
      (set_systems (dset (sys_ref s) [] (systems m)) m)) as [-> _].
  - rewrite deregister_system_state. destruct (dget _ _) as [acts|]; [|done].
    by destruct (drop_stale_frame acts
      (set_systems (dpop (sys_ref s) (systems m)) m)) as [-> _].
  - split; [done|]. simpl. lia.
  - destruct (decide (e ∈ entities m)).
    + rewrite register_component_live by done. simpl.
      by destruct (stored m e (cid c)).
    + by rewrite register_component_unknown.
  - destruct (decide (e ∈ entities m)).
    + by rewrite fetch_component_live.
    + by rewrite fetch_component_unknown.
  - destruct (decide (e ∈ entities m)).
    + rewrite deregister_component_live by done.
      by destruct (stored m e t).
    + by rewrite deregister_component_unknown.
  - destruct (decide (e ∈ entities m)).
    + rewrite destroy_entity_live by done. simpl.
      apply deregister_all_entity_id.
    + by rewrite destroy_entity_unknown.
  - by rewrite fetch_archetype_frame.
  - done.
  - done.
Qed.

(** ** The component store across registration and deregistration *)

Lemma stored_installed m m' e c e' t :
  components m' = installed m e c →
  stored m' e' t =
    if decide (t = cid c ∧ e' = e) then Some c else stored m e' t.
Proof.
  intros Hc. unfold stored. rewrite Hc.
  destruct (decide (t = cid c)) as [->|Ht].
  - rewrite dget_installed_eq. simpl.
    destruct (decide (e' = e)) as [->|He].
    + by rewrite decide_True, dget_dset_eq.
    + rewrite decide_False by (by intros [? ?]).
      rewrite dget_dset_ne, dget_dpop_ne by done.
      by destruct (dget (cid c) (components m)).
  - rewrite decide_False by (by intros [? ?]).
    by rewrite dget_installed_ne.
Qed.

Lemma stored_deregistered e t m e' t' :
  stored (deregistered e t m) e' t' =
    if decide (t' = t ∧ e' = e) then None else stored m e' t'.
Proof.
  unfold stored, deregistered. simpl. rewrite dget_dalter.
  destruct (decide (t = t')) as [<-|Ht].
  - destruct (dget t (components m)) as [inner|]; simpl.
    + destruct (decide (e' = e)) as [->|He].
      * by rewrite decide_True, dget_dpop_eq.
      * rewrite decide_False by (by intros [? ?]). by rewrite dget_dpop_ne.
    + by destruct (decide _).
  - by rewrite decide_False by (by intros [? ?]).
Qed.

Lemma NoDup_dkeys_installed m e c :
  NoDup (dkeys (components m)) → NoDup (dkeys (installed m e c)).
Proof.
  intros Hnd. unfold installed. rewrite !dkeys_dalter.
  destruct (dmem (cid c) (components m)); [done|]. by apply NoDup_dkeys_dset.
Qed.

(** ** Every call keeps the manager consistent *)

Lemma consistent_new : consistent new_manager.
Proof.
  split.
  - apply NoDup_nil_2.
  - intros e t c. done.
  - intros a b e t Hin. by apply elem_of_nil in Hin.
Qed.

Lemma elem_of_dset {K V} `{EqDecision K} (k : K) (v : V) (d : dict K V) x :
  x ∈ dset k v d → x ∈ d ∨ x = (k, v).
Proof.
  induction d as [|[k' v'] d IH]; simpl.
  - intros Hx. apply list_elem_of_singleton in Hx. by right.
  - destruct (decide (k' = k)) as [->|Hne].
    + intros Hx. apply elem_of_cons in Hx as [->|Hx]; [by right|].
      left. by right.
    + intros Hx. apply elem_of_cons in Hx as [->|Hx]; [left; by left|].
      destruct (IH Hx) as [?|?]; [left; by right | by right].
Qed.

Lemma register_actions_buckets sref acts m a b :
  (a, b) ∈ archetypes (fold_left (register_action sref) acts m) →
  (a, b) ∈ archetypes m ∨ b = [].
Proof.
  revert m. induction acts as [|x acts IH]; intros m; [by left|]. simpl.
  intros Hin. apply IH in Hin as [Hin|?]; [|by right].
  unfold register_action in Hin. simpl in Hin.
  destruct (dmem _ _); simpl in Hin; [by left|].
  apply elem_of_dset in Hin as [?|[= _ ->]]; [by left | by right].
Qed.

Lemma drop_stale_buckets acts m x :
  x ∈ archetypes (fold_left drop_stale_archetype acts m) → x ∈ archetypes m.
Proof.
  revert m. induction acts as [|y acts IH]; intros m; [done|]. simpl.
  intros Hin. apply IH in Hin. unfold drop_stale_archetype in Hin.
  destruct (archetype_in_use _ _); [done|]. simpl in Hin.
  unfold dpop in Hin. by apply list_elem_of_filter in Hin as [_ ?].
Qed.

Lemma consistent_register_system s m :
  consistent m → consistent (register_system s m).2.
Proof.
  intros [Hk Ht Hb]. rewrite register_system_state.
  destruct (dmem _ _); [done|].
  pose proof (register_actions_frame (sys_ref s) (actions s)
    (set_systems (dset (sys_ref s) [] (systems m)) m)) as (_ & _ & Hc & _).
  simpl in Hc. split.
  - by rewrite Hc.
  - intros e t c. rewrite (stored_components m) by done. apply Ht.
  - intros a b e t Hin He Hin'. rewrite (stored_components m) by done.
    apply register_actions_buckets in Hin as [Hin| ->].
    + by eapply Hb.
    + by destruct He.
Qed.

Lemma consistent_deregister_system s m :
  consistent m → consistent (deregister_system s m).2.
Proof.
  intros [Hk Ht Hb]. rewrite deregister_system_state.
  destruct (dget _ _) as [acts|]; [|done].
  pose proof (drop_stale_frame acts
    (set_systems (dpop (sys_ref s) (systems m)) m)) as (_ & _ & Hc & _).
  simpl in Hc. split.
  - by rewrite Hc.
  - intros e t c. rewrite (stored_components m) by done. apply Ht.
  - intros a b e t Hin He Hin'. rewrite (stored_components m) by done.
    apply drop_stale_buckets in Hin. by eapply Hb.
Qed.

Lemma gather_Some m e archetype values t :
  gather m e archetype = Some values → t ∈ archetype → is_Some (stored m e t).
Proof.
  unfold gather. intros Hg Hin. apply mapM_Some in Hg.
  apply list_elem_of_lookup in Hin as [i Hi].
  destruct (Forall2_lookup_l _ _ _ _ _ Hg Hi) as (c & _ & Hc). eauto.
Qed.

Lemma consistent_register_component e c m :
  consistent m → consistent (register_component e c m).2.
Proof.
  intros [Hk Ht Hb]. destruct (decide (e ∈ entities m)) as [Hlive|Hdead];
    [|by rewrite register_component_unknown].
  rewrite register_component_live by done. simpl.
  set (m' := set_components _ _).
  assert (∀ e' t, stored m' e' t =
            if decide (t = cid c ∧ e' = e) then Some c else stored m e' t)
    as Hst by (intros; by apply stored_installed).
  assert (∀ e' t, is_Some (stored m e' t) → is_Some (stored m' e' t)) as Hmono.
  { intros e' t Hs. rewrite Hst. by destruct (decide _). }
  assert (∀ e' t c', stored m' e' t = Some c' → cid c' = t) as Ht'.
  { intros e' t c'. rewrite Hst. destruct (decide _) as [[-> _]|_].
    - by intros [= <-].
    - apply Ht. }
  assert (NoDup (dkeys (components m'))) as Hk'
    by by apply NoDup_dkeys_installed.
  destruct (stored m e (cid c)) as [old|] eqn:Hold; simpl.
  - split; [done | done |].
    intros a b e' t Hin He Hin'. apply Hmono. by eapply Hb.
  - split; [done | |].
    + intros e' t c'. rewrite (stored_components m') by done. apply Ht'.
    + intros a b e' t Hin He Hin'. rewrite (stored_components m') by done.
      simpl in Hin. apply list_elem_of_fmap in Hin as [[a0 b0] [Heq Hin]].
      unfold refresh_bucket in Heq. simpl in Heq.
      destruct (dmem e b0) eqn:Hmem.
      { injection Heq as -> ->. apply Hmono. by eapply Hb. }
      destruct (gather m' e a0) as [values|] eqn:Hg.
      * injection Heq as -> ->.
        destruct (decide (e' = e)) as [->|Hne].
        -- by eapply gather_Some.
        -- rewrite dget_dset_ne in He by done. apply Hmono. by eapply Hb.
      * injection Heq as -> ->. apply Hmono. by eapply Hb.
Qed.

Lemma consistent_deregistered e t m :
  consistent m → consistent (deregistered e t m).
Proof.
  intros [Hk Ht Hb]. split.
  - unfold deregistered. simpl. by rewrite dkeys_dalter.
  - intros e' t' c'. rewrite stored_deregistered.
    destruct (decide _); [done|]. apply Ht.
  - intros a b e' t' Hin He Hin'. rewrite stored_deregistered.
    unfold deregistered in Hin. simpl in Hin.
    apply list_elem_of_fmap in Hin as [[a0 b0] [Heq Hin]].
    unfold prune_bucket in Heq. simpl in Heq.
    destruct (bool_decide (t ∈ a0) && dmem e b0) eqn:Hcond.
    + injection Heq as -> ->.
      destruct (decide (e' = e)) as [->|Hne].
      * rewrite dget_dpop_eq in He. by destruct He.
      * rewrite dget_dpop_ne in He by done.
        rewrite decide_False by (by intros [? ?]). by eapply Hb.
    + injection Heq as -> ->.
      destruct (decide (t' = t ∧ e' = e)) as [[-> ->]|_]; [|by eapply Hb].
      apply andb_false_iff in Hcond as [Hc|Hc].
      * by apply bool_decide_eq_false in Hc.
      * apply dmem_false in Hc. rewrite Hc in He. by destruct He.
Qed.

Lemma consistent_deregister_step e m c :
  consistent m → consistent (deregister_step e m c).
Proof.
  intros Hm. unfold deregister_step. destruct (stored m e (cid c)); [|done].
  by apply consistent_deregistered.
Qed.

Lemma consistent_deregister_all e cs m :
  consistent m → consistent (fold_left (deregister_step e) cs m).
Proof.
  revert m. induction cs as [|c cs IH]; intros m Hm; [done|]. simpl.
  by apply IH, consistent_deregister_step.
Qed.

Lemma consistent_set_entities s m : consistent m → consistent (set_entities s m).
Proof. intros [Hk Ht Hb]. by split. Qed.

Lemma consistent_call c m : consistent m → consistent (call c m).1.
Proof.
  intros Hm. destruct c as [s|s| |e c|e t|e t|e|a| |]; simpl.
  - by apply consistent_register_system.
  - by apply consistent_deregister_system.
  - destruct Hm. by split.
  - by apply consistent_register_component.
  - destruct (decide (e ∈ entities m)).
    + by rewrite fetch_component_live.
    + by rewrite fetch_component_unknown.
  - destruct (decide (e ∈ entities m)).
    + rewrite deregister_component_live by done.
      destruct (stored m e t); [|done]. by apply consistent_deregistered.
    + by rewrite deregister_component_unknown.
  - destruct (decide (e ∈ entities m)).
    + rewrite destroy_entity_live by done. simpl.
      by apply consistent_set_entities, consistent_deregister_all.
    + by rewrite destroy_entity_unknown.
  - by rewrite fetch_archetype_frame.
  - destruct Hm. by split.
  - destruct Hm. by split.
Qed.

Lemma consistent_calls cs m : consistent m → consistent (calls cs m).1.
Proof.
  revert m. induction cs as [|c cs IH]; intros m Hm; [done|]. simpl.
  by apply IH, consistent_call.
Qed.

Lemma reachable_consistent m : reachable m → consistent m.
Proof. intros [cs <-]. apply consistent_calls, consistent_new. Qed.

(** ** Destroying an entity *)

Lemma stored_deregister_step e m c e' t :
  stored (deregister_step e m c) e' t =
    if decide (t = cid c ∧ e' = e) then None else stored m e' t.
Proof.
  unfold deregister_step. destruct (stored m e (cid c)) as [old|] eqn:Hold.
  - apply stored_deregistered.
  - destruct (decide _) as [[-> ->]|_]; done.
Qed.

Lemma stored_deregister_all e cs m e' t :
  stored (fold_left (deregister_step e) cs m) e' t =
    if decide (e' = e ∧ t ∈ cid <$> cs) then None else stored m e' t.
Proof.
  revert m. induction cs as [|c cs IH]; intros m.
  - simpl. destruct (decide _) as [[_ Hin]|_]; [|done].
    by apply elem_of_nil in Hin.
  - csimpl. rewrite IH, stored_deregister_step.
    repeat case_decide; try done; exfalso;
      rewrite elem_of_cons in *; tauto.
Qed.

Lemma registered_components_stored m e :
  NoDup (dkeys (components m)) →
  registered_components m e = omap (stored m e) (dkeys (components m)).
Proof.
  intros Hnd. unfold registered_components, dkeys.
  apply list_omap_ext, Forall2_fmap_r, Forall_Forall2_diag, Forall_forall.
  intros [t inner] Hin. unfold stored. simpl.
  by rewrite (elem_NoDup_dget t inner).
Qed.

Lemma stored_registered m e t c :
  stored m e t = Some c → c ∈ registered_components m e.
Proof.
  unfold stored, registered_components. intros Hs.
  destruct (dget t (components m)) as [inner|] eqn:Hd; [|done].
  apply list_elem_of_omap. exists (t, inner). split; [|done].
  by apply dget_Some_elem.
Qed.

Lemma destroyed_store_empty e m t :
  consistent m →
  stored (fold_left (deregister_step e) (registered_components m e) m) e t = None.
Proof.
  intros Hm. rewrite stored_deregister_all.
  destruct (decide _) as [|Hno]; [done|].
  destruct (stored m e t) as [c|] eqn:Hs; [|done].
  exfalso. apply Hno. split; [done|].
  apply list_elem_of_fmap. exists c. split.
  - symmetry. by eapply store_typed.
  - by eapply stored_registered.
Qed.

(** What does hold of [destroy_entity]: for a live entity [e] of a
    reachable manager, it returns the list of the components stored for
    [e] (one per component type that [e] holds, in the order of the
    component store), and afterwards [e] is not live, no inner mapping of
    the component store has an entry for [e], and no bucket of an archetype
    with at least one component type contains [e]. *)
Theorem destroy_entity_cascade m e :
  reachable m → e ∈ entities m → destroy_entity_removes m e.
Proof.
  intros Hreach Hlive. apply reachable_consistent in Hreach as Hm.
  set (m1 := fold_left (deregister_step e) (registered_components m e) m).
  assert (consistent m1) as Hm1 by by apply consistent_deregister_all.
  assert (∀ t, stored m1 e t = None) as Hgone
    by (intros t; by apply destroyed_store_empty).
  exists (set_entities (entities m ∖ {[e]}) m1). split_and!.
  - rewrite destroy_entity_live by done. simpl. unfold m1.
    by rewrite registered_components_stored by apply (store_keys m Hm).
  - simpl. intros Hin. apply elem_of_difference in Hin as [_ Hin].
    apply Hin. by apply elem_of_singleton.
  - simpl. intros t inner Hin.
    specialize (Hgone t). unfold stored in Hgone.
    by rewrite (elem_NoDup_dget t inner) in Hgone by (done || apply (store_keys m1 Hm1)).
  - simpl. intros a b Hin Hne.
    destruct (dget e b) as [row|] eqn:Hrow; [|done]. exfalso.
    destruct a as [|t a]; [done|].
    destruct (bucket_sound m1 Hm1 (t :: a) b e t) as [c Hc];
      [done | by rewrite Hrow | left |].
    by rewrite Hgone in Hc.
Qed.

Lemma destroy_entity_cascade_witness :
  reachable game_manager ∧ 0 ∈ entities game_manager
  ∧ destroy_entity_removes game_manager 0.
Proof.
  assert (reachable game_manager) as Hr by (by exists game_calls).
  assert (0 ∈ entities game_manager) as Hl
    by (apply (bool_decide_unpack _); vm_compute; exact I).
  split_and!; [done | done |].
  by apply destroy_entity_cascade.
Defined.

(** C4 (the code at the failing input): on [bare_manager] a system has an
    action with the empty archetype and entity 0 holds a transform.
    [destroy_entity 0] returns the transform and takes the entity out of
    the live set, but the row of the entity stays in the bucket of the
    empty archetype, where [register_component] had put it:
    [fetch_archetype] still returns the row, and the next tick of [process]
    hands it to the action.  So [destroy_entity] does not remove the entity
    from every bucket, and the entity is still processed. *)
Theorem destroy_entity_leaves_empty_archetype :
  reachable bare_manager ∧ 0 ∈ entities bare_manager
  ∧ (destroy_entity 0 bare_manager).1 = Ok [transform_a]
  ∧ (0 ∉ entities (destroy_entity 0 bare_manager).2)
  ∧ dget [] (archetypes (destroy_entity 0 bare_manager).2) = Some [(0, [])]
  ∧ (fetch_archetype [] (destroy_entity 0 bare_manager).2).1 = Ok (Some [[]])
  ∧ inv_rows <$> (process (λ k, k) (λ _ _ _, 0) (λ _ _ _, ret Stop) 1
                    (destroy_entity 0 bare_manager).2).2.2 = [[[]]]
  ∧ ¬ destroy_entity_removes_everything bare_manager 0.
Proof.
  split_and!.
  - by exists bare_calls.
  - apply (bool_decide_unpack _); vm_compute; exact I.
  - vm_compute. reflexivity.
  - apply (bool_decide_unpack _); vm_compute; exact I.
  - vm_compute. reflexivity.
  - vm_compute. reflexivity.
  - vm_compute. reflexivity.
  - intros (m' & Heq & _ & _ & Hb).
    assert (archetypes (destroy_entity 0 bare_manager).2 = [([], [(0, [])])])
      as Ha by (vm_compute; reflexivity).
    rewrite Heq in Ha. simpl in Ha.
    specialize (Hb [] [(0, [])]). rewrite Ha in Hb.
    discriminate Hb. left.
Qed.

(** ** Registering and fetching components *)

(** C6: for a live entity [e], [register_component e c] leaves [c] stored
    for [e] under the type of [c]; it returns [c] itself when [e] held no
    component of that type, and the component that was stored before (the
    evicted one) when it did. *)
Theorem register_component_returns m e c :
  e ∈ entities m →
  let r := register_component e c m in
  stored r.2 e (cid c) = Some c
  ∧ (stored m e (cid c) = None → r.1 = Ok c)
  ∧ (∀ old, stored m e (cid c) = Some old → r.1 = Ok old).
Proof.
  intros Hlive. rewrite register_component_live by done. simpl.
  destruct (stored m e (cid c)) as [old0|] eqn:Hold; simpl; split_and!.
  - rewrite (stored_installed m _ e c) by done. by rewrite decide_True.
  - done.
  - by intros old [= ->].
  - rewrite (stored_installed m _ e c) by done. by rewrite decide_True.
  - done.
  - done.
Qed.

Lemma register_component_returns_witness :
  0 ∈ entities game_manager
  ∧ stored (register_component 0 transform_b game_manager).2 0 0
    = Some transform_b
  ∧ (register_component 0 transform_b game_manager).1 = Ok transform_a.
Proof.
  assert (0 ∈ entities game_manager) as Hl
    by (apply (bool_decide_unpack _); vm_compute; exact I).
  destruct (register_component_returns game_manager 0 transform_b Hl)
    as (Hs & _ & Ho).
  split_and!; [done | exact Hs | by apply Ho].
Defined.

(** C8: for an entity [e] that is not live, [register_component e c] raises
    the error for an unknown entity and the manager (live set, component
    store, buckets, system registry, and the back-references of the
    component objects) is what it was before the call. *)
Theorem register_component_unknown_entity m e c :
  e ∉ entities m →
  register_component e c m
  = (Raise (unknown_entity "register component for"), m).
Proof. intros Hdead. by rewrite register_component_unknown. Qed.

Lemma register_component_unknown_entity_witness :
  (7 ∉ entities game_manager)
  ∧ register_component 7 transform_b game_manager
    = (Raise (unknown_entity "register component for"), game_manager).
Proof.
  assert (7 ∉ entities game_manager) as Hd
    by (apply (bool_decide_unpack _); vm_compute; exact I).
  split; [done|]. by apply register_component_unknown_entity.
Defined.



(** ** Entity ids *)



(** Four entities are created and two of them destroyed in between: no id
    comes back. *)
Example ids_after_destroy :
  (calls [CallCreateEntity; CallCreateEntity; CallDestroyEntity 0;
          CallCreateEntity; CallDestroyEntity 2; CallCreateEntity]
     new_manager).2 = [0; 1; 2; 3].
Proof. reflexivity. Qed.

(** ** Deregistering a system *)

Lemma archetype_in_use_bound m system archetype :
  archetype_in_use archetype (dpop system (systems m)) = true
  ↔ bound_elsewhere m system archetype.
Proof.
  unfold archetype_in_use, bound_elsewhere, dpop. rewrite existsb_exists.
  split.
  - intros ([other acts] & Hin & Hb). apply list_elem_of_In in Hin.
    apply list_elem_of_filter in Hin as [Hne Hin]. simpl in *.
    apply bool_decide_eq_true in Hb. unfold dvalues in Hb.
    apply list_elem_of_fmap in Hb as ([action a'] & -> & Hb).
    by exists other, acts, action.
  - intros (other & acts & action & Hne & Hin & Hb).
    exists (other, acts). split.
    + apply list_elem_of_In, list_elem_of_filter. done.
    + apply bool_decide_eq_true. unfold dvalues.
      apply list_elem_of_fmap. by exists (action, archetype).
Qed.

Lemma drop_stale_lookup acts m archetype :
  dget archetype (archetypes (fold_left drop_stale_archetype acts m)) =
    if archetype_in_use archetype (systems m)
       || negb (bool_decide (archetype ∈ dvalues acts))
    then dget archetype (archetypes m) else None.
Proof.
  revert m. induction acts as [|[action a] acts IH]; intros m.
  - simpl. by rewrite orb_true_r.
  - simpl. rewrite IH. clear IH.
    assert (systems (drop_stale_archetype m (action, a)) = systems m) as ->.
    { unfold drop_stale_archetype. by destruct (archetype_in_use _ _). }
    unfold dvalues. csimpl.
    destruct (archetype_in_use archetype (systems m)) eqn:Huse; simpl.
    + unfold drop_stale_archetype. simpl.
      destruct (archetype_in_use a (systems m)) eqn:Huse'; [done|]. simpl.
      rewrite dget_dpop_ne; [done|]. intros ->. congruence.
    + destruct (decide (a = archetype)) as [->|Hne].
      * rewrite (bool_decide_eq_true_2 (archetype ∈ archetype :: _)) by left.
        simpl. unfold drop_stale_archetype. simpl. rewrite Huse. simpl.
        rewrite dget_dpop_eq. by destruct (negb _).
      * assert (bool_decide (archetype ∈ a :: acts.*2)
                = bool_decide (archetype ∈ acts.*2)) as ->.
        { apply bool_decide_ext. rewrite elem_of_cons.
  split; [intros [?|?]; [congruence | done] | by right]. }
        destruct (negb _); [|done].
        unfold drop_stale_archetype. simpl.
        destruct (archetype_in_use a (systems m)); [done|]. simpl.
        by rewrite dget_dpop_ne.
Qed.

(** C7: when [system] is registered and one of its actions is bound to
    [archetype], [deregister_system system] leaves the bucket of
    [archetype] exactly as it was if an action of another registered system
    is bound to the same archetype, and leaves no bucket for [archetype]
    otherwise; the system itself is no longer registered. *)
Theorem deregister_system_buckets m system actionset action archetype :
  dget (sys_ref system) (systems m) = Some actionset →
  (action, archetype) ∈ actionset →
  let m' := (deregister_system system m).2 in
  dget (sys_ref system) (systems m') = None
  ∧ (bound_elsewhere m (sys_ref system) archetype →
     dget archetype (archetypes m') = dget archetype (archetypes m))
  ∧ (¬ bound_elsewhere m (sys_ref system) archetype →
     dget archetype (archetypes m') = None).
Proof.
  intros Hreg Hact. simpl. rewrite deregister_system_state, Hreg.
  set (m1 := set_systems (dpop (sys_ref system) (systems m)) m).
  split_and!.
  - destruct (drop_stale_frame actionset m1) as (_ & _ & _ & _ & _ & ->).
    apply dget_dpop_eq.
  - intros Hb. rewrite drop_stale_lookup. simpl.
    apply archetype_in_use_bound in Hb. by rewrite Hb.
  - intros Hb. rewrite drop_stale_lookup. simpl.
    destruct (archetype_in_use _ _) eqn:Huse.
    { by apply archetype_in_use_bound in Huse. }
    rewrite bool_decide_eq_true_2; [done|].
    unfold dvalues. apply list_elem_of_fmap. by exists (action, archetype).
Qed.

Lemma deregister_system_buckets_witness :
  dget 1 (systems shared_manager) = Some [(1, [0; 1])]
  ∧ dget [0; 1] (archetypes (deregister_system collider_system shared_manager).2)
    = Some [(0, [transform_a; collider_a])]
  ∧ dget 3 (systems shared_manager) = Some [(3, [0; 3])]
  ∧ dget [0; 3] (archetypes (deregister_system physics_system shared_manager).2)
    = None.
Proof.
  assert (dget (sys_ref collider_system) (systems shared_manager)
          = Some [(1, [0; 1])]) as H1 by reflexivity.
  assert (dget (sys_ref physics_system) (systems shared_manager)
          = Some [(3, [0; 3])]) as H3 by reflexivity.
  assert ((1, [0; 1]) ∈ [(1, [0; 1])]) as Hin1 by left.
  assert ((3, [0; 3]) ∈ [(3, [0; 3])]) as Hin3 by left.
  destruct (deregister_system_buckets _ _ _ _ _ H1 Hin1) as (_ & Hkeep & _).
  destruct (deregister_system_buckets _ _ _ _ _ H3 Hin3) as (_ & _ & Hdrop).
  split_and!; [done | | done |].
  - rewrite Hkeep; [reflexivity|].
    exists 2, [(2, [0; 1])], 2. split_and!; [done | | left].
    right. left.
  - apply Hdrop. intros Hb. apply archetype_in_use_bound in Hb.
    vm_compute in Hb. discriminate Hb.
Defined.

(** ** The frame loop stops at the first [Stop] *)

Lemma iterate_ok {A} size n (body : A → LoopState → Flow * LoopState) items s :
  (∀ x s, no_stop s.2 → flow_ok (body x s)) →
  no_stop s.2 → flow_ok (iterate size n body items s).
Proof.
  intros Hbody. revert s. induction items as [|x items IH]; intros s Hs; simpl.
  - by destruct (decide _).
  - destruct (decide _); [|done].
    specialize (Hbody x s Hs). destruct (body x s) as [[| |err] s'].
    + by apply IH.
    + done.
    + done.
Qed.

Section frame_loop_facts.
Context {Time : Type}.
Variable now : nat → Time.
Variable elapsed : Time → Time → nat → Time.
Variable invoke : Action → Time → list (list Component) → M EcsContinuation.

Lemma run_action_ok tick dt archetype system entry s :
  no_stop s.2 → flow_ok (run_action invoke tick dt archetype system entry s).
Proof.
  intros Hs. unfold run_action. destruct (decide _); [|done].
  set (rows := default [] _). destruct (invoke _ dt rows s.1) as [r m'].
  simpl. destruct r as [[|]|err]; unfold flow_ok; simpl.
  - eexists _, _. split_and!; [reflexivity | done | done | done].
  - apply Forall_app. split; [done|]. by repeat constructor.
  - apply Forall_app. split; [done|]. by repeat constructor.
Qed.

Lemma run_tick_ok tick dt s :
  no_stop s.2 → flow_ok (run_tick invoke tick dt s).
Proof.
  intros Hs. unfold run_tick.
  apply iterate_ok; [|done]. intros bucket s1 Hs1.
  apply iterate_ok; [|done]. intros sys s2 Hs2.
  apply iterate_ok; [|done]. intros entry s3 Hs3.
  by apply run_action_ok.
Qed.

Lemma run_ticks_ok fuel k last s :
  no_stop s.2 → outcome_ok (run_ticks now elapsed invoke fuel k last s).
Proof.
  revert k last s. induction fuel as [|fuel IH]; intros k last s Hs; [done|].
  simpl. pose proof (run_tick_ok k (elapsed (now k) last (deltatime s.1)) s Hs)
    as Htick.
  destruct (run_tick _ _ _ _) as [[| |err] s'].
  - by apply IH.
  - done.
  - done.
Qed.

(** Once the loop has come to an end within [fuel] ticks, more ticks
    change nothing: no further tick is run. *)
Lemma run_ticks_stable fuel fuel' k last s :
  (run_ticks now elapsed invoke fuel k last s).1 ≠ StillRunning →
  fuel ≤ fuel' →
  run_ticks now elapsed invoke fuel' k last s
  = run_ticks now elapsed invoke fuel k last s.
Proof.
  revert fuel' k last s.
  induction fuel as [|fuel IH]; intros fuel' k last s Hend Hle; [done|].
  destruct fuel' as [|fuel']; [lia|]. simpl in *.
  destruct (run_tick _ _ _ _) as [[| |err] s']; [|done|done].
  apply IH; [done | lia].
Qed.

Lemma process_stop_split fuel m pre inv post :
  (process now elapsed invoke fuel m).2.2 = pre ++ inv :: post →
  inv_result inv = Ok Stop →
  post = []
  ∧ (process now elapsed invoke fuel m).1 = ReturnedStop
  ∧ (process now elapsed invoke fuel m).2.1 = inv_after inv
  ∧ ∀ fuel', fuel ≤ fuel' →
      process now elapsed invoke fuel' m = process now elapsed invoke fuel m.
Proof.
  intros Htrace Hstop.
  assert (outcome_ok (process now elapsed invoke fuel m)) as Hok.
  { unfold process. destruct (decide _); [by constructor|].
    apply run_ticks_ok. by constructor. }
  assert (¬ no_stop (pre ++ inv :: post)) as Hsome.
  { intros Hno. apply Forall_app in Hno as [_ Hno].
    by apply Forall_cons in Hno as [Hno _]. }
  unfold outcome_ok in Hok. rewrite Htrace in Hok.
  destruct (process now elapsed invoke fuel m).1 eqn:Hout; try done.
  destruct Hok as (pre' & inv' & Heq & Hpre' & Hstop' & Hafter).
  rewrite Htrace in Heq.
  assert (post = [] ∧ inv = inv') as [-> <-].
  { destruct post as [|p post _] using rev_ind.
    - by apply app_inj_tail in Heq as [_ ->].
    - rewrite app_comm_cons, app_assoc in Heq.
      apply app_inj_tail in Heq as [<- _].
      exfalso. apply Forall_app in Hpre' as [_ Hno].
      by apply Forall_cons in Hno as [Hno _]. }
  split_and!; [done | done | done |].
  intros fuel' Hle. unfold process in *.
  destruct (decide _); [done|].
  apply run_ticks_stable; [|done]. by rewrite Hout.
Qed.

(** C3: if the invocation number [i] made by [process] answers [Stop],
    it is the last invocation that [process] ever makes: the trace ends
    with it (no action of the same system, of a later system, of a later
    archetype or of a later tick is invoked), [process] returns with the
    manager as that invocation left it, and granting the loop more ticks
    changes neither the trace nor the result. *)
Theorem process_stops_at_first_stop fuel m i inv :
  (process now elapsed invoke fuel m).2.2 !! i = Some inv →
  inv_result inv = Ok Stop →
  length (process now elapsed invoke fuel m).2.2 = S i
  ∧ (process now elapsed invoke fuel m).1 = ReturnedStop
  ∧ (process now elapsed invoke fuel m).2.1 = inv_after inv
  ∧ ∀ fuel', fuel ≤ fuel' →
      process now elapsed invoke fuel' m = process now elapsed invoke fuel m.
Proof.
  intros Hi Hstop.
  pose proof (take_drop_middle _ _ _ Hi) as Hsplit. symmetry in Hsplit.
  destruct (process_stop_split fuel m _ _ _ Hsplit Hstop)
    as (Hpost & Hout & Hafter & Hfuel).
  split_and!; [| done | done | done].
  rewrite Hsplit at 1. rewrite Hpost, length_app, length_take. simpl.
  apply lookup_lt_Some in Hi. lia.
Qed.
End frame_loop_facts.

Lemma process_stops_at_first_stop_witness :
  let run := process (λ k, k) (λ current last scale, (current - last) * scale)
               pausing_invoke in
  ∃ inv, (run 2 shared_manager).2.2 !! 3 = Some inv
    ∧ inv_result inv = Ok Stop
    ∧ (inv_tick inv, inv_system inv, inv_action inv) = (2, 1, 1)
    ∧ length (run 2 shared_manager).2.2 = 4
    ∧ (run 2 shared_manager).1 = ReturnedStop
    ∧ run 5 shared_manager = run 2 shared_manager.
Proof.
  intros run.
  destruct ((run 2 shared_manager).2.2 !! 3) as [inv|] eqn:Hinv.
  - assert (inv_result inv = Ok Stop
            ∧ (inv_tick inv, inv_system inv, inv_action inv) = (2, 1, 1))
      as [Hstop Hwho].
    { assert ((λ x, (inv_result x, inv_tick x, inv_system x, inv_action x))
                <$> (run 2 shared_manager).2.2 !! 3
              = Some (Ok Stop, 2, 1, 1)) as Hcomp by (vm_compute; reflexivity).
      rewrite Hinv in Hcomp. simpl in Hcomp.
      injection Hcomp as H1 H2 H3 H4. split; [exact H1|].
      rewrite H2, H3, H4. reflexivity. }
    destruct (process_stops_at_first_stop _ _ _ _ _ _ _ Hinv Hstop)
      as (Hlen & Hout & _ & Hfuel).
    exists inv. split_and!; [done | done | done | done | done |].
    apply Hfuel. lia.
  - exfalso.
    assert (is_Some ((run 2 shared_manager).2.2 !! 3)) as [x Hx].
    { apply lookup_lt_is_Some. vm_compute. lia. }
    congruence.
Defined.

(** ** Two components and the bucket of their archetype *)

Lemma dget_fmap_entries {K V} `{EqDecision K} (f : K * V → K * V) k
    (d : dict K V) :
  (∀ x, (f x).1 = x.1) →
  dget k (f <$> d) = (λ v, (f (k, v)).2) <$> dget k d.
Proof.
  intros Hkey. induction d as [|[k' v'] d IH]; [done|]. csimpl.
  specialize (Hkey (k', v')) as Hk. simpl in Hk.
  destruct (decide (k' = k)) as [->|Hne].
  - destruct (f (k, v')) as [k'' v''] eqn:Hf. simpl in *. subst k''.
    by rewrite decide_True, Hf.
  - destruct (f (k', v')) as [k'' v''] eqn:Hf. simpl in *. subst k''.
    by rewrite decide_False.
Qed.

Lemma refresh_bucket_key m e x : (refresh_bucket m e x).1 = x.1.
Proof.
  unfold refresh_bucket. destruct (dmem e x.2); [done|].
  by destruct (gather m e x.1).
Qed.

Lemma prune_bucket_key e t x : (prune_bucket e t x).1 = x.1.
Proof. unfold prune_bucket. by destruct (_ && _). Qed.

Lemma gather_components m m' e archetype :
  components m' = components m → gather m' e archetype = gather m e archetype.
Proof. unfold gather, stored. by intros ->. Qed.

(** A fresh registration for an entity that is not in the bucket: the
    bucket gets a row exactly when the entity now holds every type. *)
Lemma register_fresh_bucket m e c archetype bucket :
  e ∈ entities m → stored m e (cid c) = None →
  dget archetype (archetypes m) = Some bucket → dget e bucket = None →
  let m' := (register_component e c m).2 in
  dget archetype (archetypes m')
  = Some (match gather m' e archetype with
          | Some row => dset e row bucket
          | None => bucket
          end).
Proof.
  intros Hlive Hnew Hb He. rewrite register_component_live by done.
  rewrite Hnew. simpl.
  rewrite dget_fmap_entries by apply refresh_bucket_key. rewrite Hb. simpl.
  unfold refresh_bucket. simpl. apply dmem_false in He. rewrite He.
  set (m' := set_components _ _).
  rewrite (gather_components m' (set_archetypes _ m')) by done.
  by destruct (gather m' e archetype).
Qed.

Lemma register_in_order m e X Y archetype :
  consistent m → e ∈ entities m →
  requires_exactly archetype X Y →
  is_Some (dget archetype (archetypes m)) →
  cid X ≠ cid Y →
  stored m e (cid X) = None → stored m e (cid Y) = None →
  let m2 := (register_component e Y (register_component e X m).2).2 in
  holds_current_row m2 e archetype X Y
  ∧ ∀ t, t = cid X ∨ t = cid Y →
      absent_from_bucket (deregister_component e t m2).2 e archetype.
Proof.
  intros Hm Hlive Harch [bucket Hb] Hne HX HY.
  assert (dget e bucket = None) as He.
  { destruct (dget e bucket) as [row|] eqn:Hrow; [|done]. exfalso.
    destruct (bucket_sound m Hm archetype bucket e (cid X)) as [c Hc].
    - by apply dget_Some_elem.
    - by rewrite Hrow.
    - apply Harch. by left.
    - by rewrite HX in Hc. }
  set (m1 := (register_component e X m).2).
  assert (∀ e' t, stored m1 e' t =
            if decide (t = cid X ∧ e' = e) then Some X else stored m e' t)
    as Hst1.
  { intros e' t. unfold m1. rewrite register_component_live by done.
    rewrite HX. simpl. by rewrite (stored_installed m _ e X). }
  assert (e ∈ entities m1) as Hlive1.
  { unfold m1. rewrite register_component_live by done. by rewrite HX. }
  assert (stored m1 e (cid Y) = None) as HY1.
  { rewrite Hst1. by rewrite decide_False by (by intros [? _]). }
  assert (dget archetype (archetypes m1) = Some bucket) as Hb1.
  { unfold m1. rewrite (register_fresh_bucket m e X archetype bucket) by done.
    fold m1. destruct (gather m1 e archetype) as [row|] eqn:Hg; [|done].
    exfalso. destruct (gather_Some m1 e archetype row (cid Y) Hg) as [c Hc].
    - apply Harch. by right.
    - by rewrite HY1 in Hc. }
  simpl. fold m1. set (m2 := (register_component e Y m1).2).
  assert (∀ e' t, stored m2 e' t =
            if decide (t = cid Y ∧ e' = e) then Some Y else stored m1 e' t)
    as Hst2.
  { intros e' t. unfold m2. rewrite register_component_live by done.
    rewrite HY1. simpl. by rewrite (stored_installed m1 _ e Y). }
  assert (e ∈ entities m2) as Hlive2.
  { unfold m2. rewrite register_component_live by done. by rewrite HY1. }
  assert (stored m2 e (cid X) = Some X) as HX2.
  { rewrite Hst2, decide_False by (by intros [? _]).
    by rewrite Hst1, decide_True. }
  assert (stored m2 e (cid Y) = Some Y) as HY2.
  { by rewrite Hst2, decide_True. }
  assert (is_Some (gather m2 e archetype)) as [row Hrow].
  { unfold gather. apply mapM_is_Some, Forall_forall. intros t Ht. simpl.
    apply Harch in Ht as [->| ->]; [by rewrite HX2 | by rewrite HY2]. }
  assert (dget archetype (archetypes m2) = Some (dset e row bucket)) as Hb2.
  { unfold m2. rewrite (register_fresh_bucket m1 e Y archetype bucket) by done.
    fold m2. by rewrite Hrow. }
  split.
  - exists (dset e row bucket), row.
    split_and!; [done | apply dget_dset_eq | done | done | done].
  - intros t Ht.
    assert (is_Some (stored m2 e t) ∧ t ∈ archetype) as [[c Hc] Hin].
    { split; [|by apply Harch]. destruct Ht as [-> | ->]; eauto. }
    rewrite deregister_component_live by done. rewrite Hc. simpl.
    exists (dpop e (dset e row bucket)). split; [|apply dget_dpop_eq].
    unfold deregistered. simpl.
    rewrite dget_fmap_entries by apply prune_bucket_key. rewrite Hb2. simpl.
    unfold prune_bucket. simpl.
    rewrite bool_decide_eq_true_2 by done.
    unfold dmem. by rewrite dget_dset_eq.
Qed.

(** What does hold of the two registrations: for a live entity [e] of a
    reachable manager that has a bucket for an archetype naming exactly the
    types of [A] and [B], two different types of which [e] holds no
    component yet: after [A] and [B] are registered for [e], in either
    order, the bucket has a row for [e] that holds what the component store
    holds for [e] (which is [A] and [B]); and deregistering the type of [A]
    or of [B] for [e] next leaves the bucket without [e]. *)
Theorem register_pair_fills_bucket m e A B archetype :
  reachable m → e ∈ entities m →
  requires_exactly archetype A B →
  is_Some (dget archetype (archetypes m)) →
  cid A ≠ cid B →
  stored m e (cid A) = None → stored m e (cid B) = None →
  registered_pair_in_bucket m e A B archetype.
Proof.
  intros Hreach Hlive Harch Hbucket Hne HA HB X Y Horder.
  apply reachable_consistent in Hreach.
  destruct Horder as [[-> ->] | [-> ->]].
  - by apply register_in_order.
  - destruct (register_in_order m e B A archetype) as [Hrow Hgone]; try done.
    + intros t. rewrite (Harch t). tauto.
    + split.
      * destruct Hrow as (bucket & row & ? & ? & ? & ? & ?).
        by exists bucket, row.
      * intros t Ht. apply Hgone. tauto.
Qed.

Lemma requires_transform_collider A B :
  cid A = 0 → cid B = 1 → requires_exactly [0; 1] A B.
Proof.
  intros HA HB t. rewrite HA, HB, !elem_of_cons, elem_of_nil. tauto.
Qed.

Lemma register_pair_fills_bucket_witness :
  reachable fresh_manager ∧ 0 ∈ entities fresh_manager
  ∧ requires_exactly [0; 1] transform_a collider_a
  ∧ registered_pair_in_bucket fresh_manager 0 transform_a collider_a [0; 1].
Proof.
  assert (reachable fresh_manager) as Hr by (by exists fresh_calls).
  assert (0 ∈ entities fresh_manager) as Hl
    by (apply (bool_decide_unpack _); vm_compute; exact I).
  assert (requires_exactly [0; 1] transform_a collider_a) as Ha
    by (by apply requires_transform_collider).
  split_and!; [done | done | done |].
  apply register_pair_fills_bucket; [done | done | done | | | |].
  - eexists. reflexivity.
  - discriminate.
  - reflexivity.
  - reflexivity.
Defined.

(** C5 (the code at the failing input): on [held_manager] the live entity
    0 holds [transform_a], and the bucket of the archetype of a transform
    and a collider exists.  After [collider_a] and then a second transform,
    [transform_b], are registered for the entity, the component store holds
    [transform_b] and [collider_a] for it, but its row in the bucket holds
    [transform_a], which the store no longer holds: the second registration
    takes the replacement branch of [register_component], which touches no
    bucket.  So the bucket does not contain the entity with both current
    components. *)
Theorem register_pair_over_held_component :
  reachable held_manager ∧ 0 ∈ entities held_manager
  ∧ requires_exactly [0; 1] transform_b collider_a
  ∧ is_Some (dget [0; 1] (archetypes held_manager))
  ∧ (let m2 := (register_component 0 transform_b
                  (register_component 0 collider_a held_manager).2).2 in
     stored m2 0 0 = Some transform_b ∧ stored m2 0 1 = Some collider_a
     ∧ dget [0; 1] (archetypes m2) = Some [(0, [transform_a; collider_a])])
  ∧ ¬ registered_pair_in_bucket held_manager 0 transform_b collider_a [0; 1].
Proof.
  split_and!.
  - by exists held_calls.
  - apply (bool_decide_unpack _); vm_compute; exact I.
  - by apply requires_transform_collider.
  - eexists. reflexivity.
  - cbn zeta. split_and!; vm_compute; reflexivity.
  - intros Hpair.
    destruct (Hpair collider_a transform_b) as [Hrow _]; [by right|].
    destruct Hrow as (bucket & row & Hb & He & Hg & _).
    assert (dget [0; 1] (archetypes
              (register_component 0 transform_b
                 (register_component 0 collider_a held_manager).2).2)
            = Some [(0, [transform_a; collider_a])]) as Hb'
      by (vm_compute; reflexivity).
    assert (gather (register_component 0 transform_b
                      (register_component 0 collider_a held_manager).2).2
              0 [0; 1]
            = Some [transform_b; collider_a]) as Hg'
      by (vm_compute; reflexivity).
    rewrite Hb' in Hb. injection Hb as <-.
    rewrite Hg' in Hg. injection Hg as <-.
    simpl in He. discriminate He.
Qed.

(** ** Buckets that miss entities, rows that miss components *)

(** What does hold of every bucket of a reachable manager: its entities
    hold a component of every type of the archetype. *)
Theorem bucket_members_hold_components m archetype bucket e t :
  reachable m → (archetype, bucket) ∈ archetypes m →
  is_Some (dget e bucket) → t ∈ archetype → is_Some (stored m e t).
Proof.
  intros Hreach. apply reachable_consistent in Hreach.
  apply (bucket_sound m Hreach).
Qed.

(** C1 (the code at the failing inputs): a bucket that [register_system]
    creates, or creates again after [deregister_system] dropped it, is
    empty although a live entity holds a component of every type of the
    archetype. *)
Theorem new_bucket_misses_live_entity :
  (0 ∈ entities late_manager
   ∧ stored late_manager 0 0 = Some transform_a
   ∧ stored late_manager 0 1 = Some collider_a
   ∧ dget [0; 1] (archetypes late_manager) = Some [])
  ∧ (0 ∈ entities again_manager
     ∧ stored again_manager 0 0 = Some transform_a
     ∧ stored again_manager 0 1 = Some collider_a
     ∧ dget [0; 1] (archetypes again_manager) = Some []).
Proof.
  split; (split_and!;
    [apply (bool_decide_unpack _); vm_compute; exact I
    | reflexivity | reflexivity | reflexivity]).
Qed.

(** The replacement branch of [register_component] leaves every bucket as
    it is. *)
Lemma replacement_keeps_buckets m e c old :
  e ∈ entities m → stored m e (cid c) = Some old →
  archetypes (register_component e c m).2 = archetypes m.
Proof.
  intros Hlive Hold. rewrite register_component_live by done.
  by rewrite Hold.
Qed.

(** C2 (the code at the failing input): on [game_manager] the entity is in
    the bucket of [(Transform2D, Collider2D)] with [transform_a]; after
    [register_component] replaces it by [transform_b] (and returns
    [transform_a]), the store holds [transform_b] and the row of the bucket
    still holds [transform_a]. *)
Theorem replaced_component_stays_in_row :
  let r := register_component 0 transform_b game_manager in
  r.1 = Ok transform_a
  ∧ stored r.2 0 0 = Some transform_b
  ∧ dget [0; 1] (archetypes r.2) = Some [(0, [transform_a; collider_a])]
  ∧ transform_a ≠ transform_b.
Proof. split_and!; [reflexivity | reflexivity | reflexivity | discriminate]. Qed.

(** ** More facts about dictionaries *)

Lemma dget_app {K V} `{EqDecision K} (k : K) (d1 d2 : dict K V) :
  dget k (d1 ++ d2) = match dget k d1 with Some v => Some v | None => dget k d2 end.
Proof.
  induction d1 as [|[k' v'] d1 IH]; [done|]. simpl.
  by destruct (decide (k' = k)).
Qed.

Lemma dset_absent {K V} `{EqDecision K} (k : K) (v : V) (d : dict K V) :
  dget k d = None → dset k v d = d ++ [(k, v)].
Proof.
  induction d as [|[k' v'] d IH]; [done|]. simpl.
  destruct (decide (k' = k)); [done|]. intros Hd. by rewrite IH.
Qed.

Lemma dkeys_fmap_entries {K V} (f : K * V → K * V) (d : dict K V) :
  (∀ x, (f x).1 = x.1) → dkeys (f <$> d) = dkeys d.
Proof.
  intros Hkey. unfold dkeys. rewrite <- list_fmap_compose.
  apply list_fmap_ext. intros _ x _. apply Hkey.
Qed.

Lemma dalter_app_last {K V} `{EqDecision K} (f : V → V) (k : K) (v : V)
    (d : dict K V) :
  dget k d = None → dalter f k (d ++ [(k, v)]) = d ++ [(k, f v)].
Proof.
  intros Hd. unfold dalter. rewrite fmap_app. simpl.
  rewrite decide_True by done. f_equal.
  induction d as [|[k' v'] d IH]; [done|]. simpl in Hd. csimpl.
  destruct (decide (k' = k)); [done|]. by rewrite IH.
Qed.

(** ** Unknown entities *)

(** X8: on an entity that is not live, [fetch_component],
    [deregister_component] and [destroy_entity] raise [ValueError] with
    their own message and leave the manager as it was. *)
Theorem unknown_entity_raises m e t :
  e ∉ entities m →
  fetch_component e t m
  = (Raise (ValueError "Attempted to fetch component for unknown entity"), m)
  ∧ deregister_component e t m
    = (Raise (ValueError "Attempted to deregister component for unknown entity"), m)
  ∧ destroy_entity e m
    = (Raise (ValueError "Attempted to destroy unknown entity"), m).
Proof.
  intros Hdead. split_and!.
  - by apply fetch_component_unknown.
  - by apply deregister_component_unknown.
  - by apply destroy_entity_unknown.
Qed.

Lemma unknown_entity_raises_witness :
  (7 ∉ entities game_manager)
  ∧ (fetch_component 7 0 game_manager).2 = game_manager
  ∧ (deregister_component 7 0 game_manager).2 = game_manager
  ∧ (destroy_entity 7 game_manager).2 = game_manager.
Proof.
  assert (7 ∉ entities game_manager) as Hd
    by (apply (bool_decide_unpack _); vm_compute; exact I).
  destruct (unknown_entity_raises game_manager 7 0 Hd) as (H1 & H2 & H3).
  split_and!; [done | by rewrite H1 | by rewrite H2 | by rewrite H3].
Defined.

(** ** Registering a system *)

Lemma register_actions_keep_key sref acts m :
  is_Some (dget sref (systems m)) →
  is_Some (dget sref (systems (fold_left (register_action sref) acts m))).
Proof.
  revert m. induction acts as [|x acts IH]; intros m Hm; [done|]. simpl.
  apply IH. unfold register_action. simpl.
  assert (is_Some (dget sref (dalter (dset x.1 (flatten_archetype x.2)) sref
                                (systems m)))) as Hs.
  { rewrite dget_dalter_eq. destruct Hm as [a ->]. by eexists. }
  by destruct (dmem _ _).
Qed.

(** X1: registering a system twice is the same as registering it once: the
    second call returns without changing anything. *)
Theorem register_system_twice s m :
  register_system s (register_system s m).2 = (Ok tt, (register_system s m).2).
Proof.
  assert (dmem (sys_ref s) (systems (register_system s m).2) = true) as Hreg.
  { apply dmem_true. rewrite register_system_state.
    destruct (dmem (sys_ref s) (systems m)) eqn:Hm; [by apply dmem_true|].
    apply register_actions_keep_key. simpl. rewrite dget_dset_eq. by eexists. }
  unfold register_system at 1. unfold bind, get_state, ret. by rewrite Hreg.
Qed.

Lemma register_actions_archetypes sref acts m :
  ∃ fresh,
    archetypes (fold_left (register_action sref) acts m) = archetypes m ++ fresh
    ∧ Forall (λ x, x.2 = [] ∧ dget x.1 (archetypes m) = None
                   ∧ x.1 ∈ flatten_archetype <$> dvalues acts) fresh
    ∧ ∀ a, a ∈ flatten_archetype <$> dvalues acts →
        is_Some (dget a (archetypes m ++ fresh)).
Proof.
  revert m. induction acts as [|[action classes] acts IH]; intros m.
  - exists []. rewrite app_nil_r. split_and!; [done | constructor |].
    intros a Ha. by apply elem_of_nil in Ha.
  - simpl. destruct (IH (register_action sref m (action, classes)))
      as (fresh & Heq & Hall & Hsome). rewrite Heq. clear Heq IH.
    unfold register_action in *. simpl in *. unfold dvalues in *. csimpl.
    destruct (dmem (flatten_archetype classes) (archetypes m)) eqn:Hmem;
      simpl in *.
    + exists fresh. split_and!; [done | |].
      * eapply Forall_impl; [done|]. intros x (? & ? & ?).
        split_and!; [done | done | by right].
      * intros a Ha. apply elem_of_cons in Ha as [->|Ha]; [|by apply Hsome].
        rewrite dget_app. apply dmem_true in Hmem as [b ->]. by eexists.
    + apply dmem_false in Hmem. rewrite dset_absent in Hall, Hsome by done.
      exists ((flatten_archetype classes, []) :: fresh).
      rewrite dset_absent by done. rewrite <- app_assoc. simpl.
      split_and!; [done | |].
      * constructor; [split_and!; [done | done | by left]|].
        eapply Forall_impl; [done|]. intros x (? & Hx & ?).
        split_and!; [done | | by right].
        rewrite dget_app in Hx. by destruct (dget x.1 (archetypes m)).
      * intros a Ha. rewrite <- app_assoc in Hsome. simpl in Hsome.
        apply elem_of_cons in Ha as [->|Ha]; [|by apply Hsome].
        rewrite dget_app, Hmem. simpl. rewrite decide_True by done.
        by eexists.
Qed.

(** X2: registering a system that is not registered yet leaves every
    existing bucket as it is, gives every archetype of its actions a
    bucket, creates the missing buckets empty, and creates no bucket for
    any other archetype; the component store and the live set are not
    touched. *)
Theorem register_system_buckets s m archetype :
  dget (sys_ref s) (systems m) = None →
  let m' := (register_system s m).2 in
  components m' = components m ∧ entities m' = entities m
  ∧ dget archetype (archetypes m') =
      match dget archetype (archetypes m) with
      | Some bucket => Some bucket
      | None =>
          if bool_decide (archetype ∈ flatten_archetype <$> dvalues (actions s))
          then Some [] else None
      end.
Proof.
  intros Hnew. simpl. rewrite register_system_state.
  apply dmem_false in Hnew as Hmem. rewrite Hmem.
  set (m0 := set_systems _ m).
  destruct (register_actions_frame (sys_ref s) (actions s) m0)
    as (_ & He & Hc & _).
  split_and!; [done | done |].
  destruct (register_actions_archetypes (sys_ref s) (actions s) m0)
    as (fresh & -> & Hall & Hsome). simpl.
  rewrite dget_app. destruct (dget archetype (archetypes m)) eqn:Hold; [done|].
  case_bool_decide as Hin.
  - destruct (Hsome archetype Hin) as [b Hb]. simpl in Hb.
    rewrite dget_app, Hold in Hb. rewrite Hb. f_equal.
    apply dget_Some_elem in Hb. rewrite Forall_forall in Hall.
    by destruct (Hall _ Hb) as (? & _).
  - destruct (dget archetype fresh) as [b|] eqn:Hb; [|done].
    apply dget_Some_elem in Hb. rewrite Forall_forall in Hall.
    by destruct (Hall _ Hb) as (_ & _ & ?).
Qed.

Lemma register_system_buckets_witness :
  dget (sys_ref collider_system') (systems game_manager) = None
  ∧ dget [0; 1] (archetypes (register_system collider_system' game_manager).2)
    = Some [(0, [transform_a; collider_a])]
  ∧ dget [0; 1] (archetypes (register_system collider_system new_manager).2)
    = Some []
  ∧ dget [0; 3] (archetypes (register_system collider_system new_manager).2)
    = None.
Proof.
  assert (dget (sys_ref collider_system') (systems game_manager) = None)
    as H1 by reflexivity.
  assert (dget (sys_ref collider_system) (systems new_manager) = None)
    as H2 by reflexivity.
  destruct (register_system_buckets _ _ [0; 1] H1) as (_ & _ & Hkeep).
  destruct (register_system_buckets _ _ [0; 1] H2) as (_ & _ & Hmake).
  destruct (register_system_buckets _ _ [0; 3] H2) as (_ & _ & Hnone).
  split_and!; [done | exact Hkeep | exact Hmake | exact Hnone].
Defined.

(** ** What registering and deregistering a component touch *)

Lemma refresh_bucket_other m e x e' :
  e' ≠ e → dget e' (refresh_bucket m e x).2 = dget e' x.2.
Proof.
  intros Hne. unfold refresh_bucket. destruct (dmem e x.2); [done|].
  destruct (gather m e x.1); [|done]. simpl. by rewrite dget_dset_ne.
Qed.

Lemma register_component_archetypes m e c :
  e ∈ entities m →
  ∃ f, (∀ x, (f x).1 = x.1) ∧ (∀ x e', e' ≠ e → dget e' (f x).2 = dget e' x.2)
    ∧ archetypes (register_component e c m).2 = f <$> archetypes m.
Proof.
  intros Hlive. rewrite register_component_live by done.
  destruct (stored m e (cid c)); simpl.
  - exists id. split_and!; [done | done |]. by rewrite list_fmap_id.
  - eexists. split_and!; [| |reflexivity].
    + intros x. apply refresh_bucket_key.
    + intros x e' Hne. by apply refresh_bucket_other.
Qed.

(** X5: for a live entity [e], [register_component e c] makes [e] the
    owner recorded in [c], changes the component store at the type of [c]
    for [e] and nowhere else, keeps every bucket's archetype and the rows
    of all other entities, and leaves the live set, the system registry,
    the id counter and the time scale alone. *)
Theorem register_component_locality m e c :
  e ∈ entities m →
  let m' := (register_component e c m).2 in
  eid m' !! oid c = Some e
  ∧ (∀ e' t, (t, e') ≠ (cid c, e) → stored m' e' t = stored m e' t)
  ∧ dkeys (archetypes m') = dkeys (archetypes m)
  ∧ (∀ archetype e', e' ≠ e →
       (dget archetype (archetypes m') ≫= dget e')
       = (dget archetype (archetypes m) ≫= dget e'))
  ∧ entities m' = entities m ∧ systems m' = systems m
  ∧ entity_id m' = entity_id m ∧ deltatime m' = deltatime m.
Proof.
  intros Hlive. simpl.
  destruct (register_component_archetypes m e c Hlive) as (f & Hkey & Hrow & Ha).
  split_and!.
  - rewrite register_component_live by done.
    destruct (stored m e (cid c)); simpl; apply lookup_insert_eq.
  - intros e' t Hne. rewrite register_component_live by done.
    destruct (stored m e (cid c)); simpl;
      rewrite (stored_installed m _ e c) by done;
      rewrite decide_False; try done; intros [-> ->]; done.
  - rewrite Ha. by apply dkeys_fmap_entries.
  - intros archetype e' Hne. rewrite Ha, dget_fmap_entries by done.
    destruct (dget archetype (archetypes m)) as [b|]; [|done]. simpl.
    by rewrite (Hrow (archetype, b)).
  - rewrite register_component_live by done. by destruct (stored m e (cid c)).
  - rewrite register_component_live by done. by destruct (stored m e (cid c)).
  - rewrite register_component_live by done. by destruct (stored m e (cid c)).
  - rewrite register_component_live by done. by destruct (stored m e (cid c)).
Qed.

Lemma register_component_locality_witness :
  0 ∈ entities fresh_manager
  ∧ eid (register_component 0 transform_a fresh_manager).2 !! 100 = Some 0
  ∧ stored (register_component 0 transform_a fresh_manager).2 0 1
    = stored fresh_manager 0 1.
Proof.
  assert (0 ∈ entities fresh_manager) as Hl
    by (apply (bool_decide_unpack _); vm_compute; exact I).
  destruct (register_component_locality fresh_manager 0 transform_a Hl)
    as (Heid & Hst & _).
  split_and!; [done | exact Heid | by apply Hst].
Defined.

Lemma gather_None m e archetype :
  gather m e archetype = None → ¬ ∀ t, t ∈ archetype → is_Some (stored m e t).
Proof.
  unfold gather. intros Hg Hall.
  assert (is_Some (mapM (stored m e) archetype)) as [row Hrow].
  { apply mapM_is_Some, Forall_forall. intros t Ht. by apply Hall. }
  congruence.
Qed.

(** X6: on a reachable manager, after a component of a type that the live
    entity [e] did not hold is registered for [e], every bucket is up to
    date for [e]: [e] is in the bucket exactly when it holds a component of
    every type of the bucket's archetype. *)
Theorem fresh_registration_completes_membership m e c archetype bucket :
  reachable m → e ∈ entities m → stored m e (cid c) = None →
  let m' := (register_component e c m).2 in
  (archetype, bucket) ∈ archetypes m' →
  is_Some (dget e bucket) ↔ ∀ t, t ∈ archetype → is_Some (stored m' e t).
Proof.
  intros Hreach Hlive Hnew. simpl.
  apply reachable_consistent in Hreach as Hm.
  assert (consistent (register_component e c m).2) as Hm'
    by by apply consistent_register_component.
  intros Hin. split.
  { intros He t Ht. by eapply (bucket_sound _ Hm'). }
  revert Hin. rewrite register_component_live by done. rewrite Hnew. simpl.
  set (m1 := set_components _ _). intros Hin Hall.
  assert (∀ t, t ∈ archetype → is_Some (stored m1 e t)) as Hall1.
  { intros t Ht. rewrite <- (stored_components _ (set_archetypes
      (refresh_bucket m1 e <$> archetypes m) m1)) by done. by apply Hall. }
  apply list_elem_of_fmap in Hin as ([a b] & Heq & Hin).
  unfold refresh_bucket in Heq. simpl in Heq.
  destruct (dmem e b) eqn:Hmem.
  - injection Heq as -> ->. by apply dmem_true.
  - destruct (gather m1 e a) as [row|] eqn:Hg.
    + injection Heq as -> ->. rewrite dget_dset_eq. by eexists.
    + injection Heq as -> ->. by apply gather_None in Hg.
Qed.

Lemma fresh_registration_completes_membership_witness :
  reachable late_manager ∧ 0 ∈ entities late_manager
  ∧ stored late_manager 0 3 = None
  ∧ is_Some (dget 0 [(0, [transform_a; collider_a])]).
Proof.
  assert (reachable late_manager) as Hr by (by exists late_calls).
  assert (0 ∈ entities late_manager) as Hl
    by (apply (bool_decide_unpack _); vm_compute; exact I).
  assert (stored late_manager 0 (cid velocity_a) = None) as Hn by reflexivity.
  assert (([0; 1], [(0, [transform_a; collider_a])])
          ∈ archetypes (register_component 0 velocity_a late_manager).2) as Hin.
  { assert (archetypes (register_component 0 velocity_a late_manager).2
            = [([0; 1], [(0, [transform_a; collider_a])])]) as ->
      by (vm_compute; reflexivity). left. }
  split_and!; [done | done | done |].
  apply (fresh_registration_completes_membership
           late_manager 0 velocity_a [0; 1] _ Hr Hl Hn Hin).
  intros t Ht.
  apply elem_of_cons in Ht as [->|Ht]; [by eexists|].
  apply list_elem_of_singleton in Ht as ->. by eexists.
Defined.

Lemma prune_bucket_row e t archetype bucket :
  (prune_bucket e t (archetype, bucket)).2
  = if decide (t ∈ archetype) then dpop e bucket else bucket.
Proof.
  unfold prune_bucket. simpl. destruct (decide (t ∈ archetype)) as [Hin|Hin].
  - rewrite bool_decide_eq_true_2 by done. simpl.
    destruct (dmem e bucket) eqn:Hmem; [done|].
    apply dmem_false in Hmem. by rewrite dpop_absent.
  - by rewrite bool_decide_eq_false_2.
Qed.

(** X7: for a live entity [e], [deregister_component e t] returns what is
    stored for [e] under [t].  When nothing is stored it changes nothing at
    all.  Otherwise the store loses that one entry and no other, every
    bucket whose archetype contains [t] loses its row for [e] and keeps its
    other rows, and every other bucket stays as it is. *)
Theorem deregister_component_effect m e t :
  e ∈ entities m →
  let r := deregister_component e t m in
  r.1 = Ok (stored m e t)
  ∧ (stored m e t = None → r.2 = m)
  ∧ (∀ e' t', stored r.2 e' t' =
       if decide (t' = t ∧ e' = e) then None else stored m e' t')
  ∧ (∀ archetype,
       dget archetype (archetypes r.2) =
         (λ bucket, if decide (t ∈ archetype ∧ is_Some (stored m e t))
                    then dpop e bucket else bucket)
           <$> dget archetype (archetypes m)).
Proof.
  intros Hlive. simpl. rewrite deregister_component_live by done.
  destruct (stored m e t) as [c|] eqn:Hc; simpl; split_and!; try done.
  - intros e' t'. apply stored_deregistered.
  - intros archetype. rewrite dget_fmap_entries by apply prune_bucket_key.
    destruct (dget archetype (archetypes m)) as [b|]; [|done]. simpl.
    rewrite prune_bucket_row.
    destruct (decide (t ∈ archetype)).
    + rewrite decide_True; [done|]. split; [done | by eexists].
    + rewrite decide_False; [done|]. by intros [? _].
  - intros e' t'. destruct (decide _) as [[-> ->]|]; done.
  - intros archetype. destruct (dget archetype (archetypes m)); [|done].
    simpl. rewrite decide_False; [done|]. intros [_ [? ?]]. done.
Qed.

Lemma deregister_component_effect_witness :
  0 ∈ entities game_manager
  ∧ (deregister_component 0 1 game_manager).1 = Ok (Some collider_a)
  ∧ dget [0; 1] (archetypes (deregister_component 0 1 game_manager).2) = Some []
  ∧ (deregister_component 0 2 game_manager).2 = game_manager.
Proof.
  assert (0 ∈ entities game_manager) as Hl
    by (apply (bool_decide_unpack _); vm_compute; exact I).
  destruct (deregister_component_effect game_manager 0 1 Hl)
    as (Hret & _ & _ & Hb).
  destruct (deregister_component_effect game_manager 0 2 Hl)
    as (_ & Hnone & _).
  split_and!; [done | exact Hret | | by apply Hnone].
  rewrite Hb. reflexivity.
Defined.

(** ** Live entities and well-typed rows *)

Lemma calls_invariant (P : EcsManager → Prop) :
  (∀ c m, P m → P (call c m).1) → ∀ cs m, P m → P (calls cs m).1.
Proof.
  intros Hstep cs. induction cs as [|c cs IH]; intros m Hm; [done|].
  simpl. by apply IH, Hstep.
Qed.

Lemma alive_call c m : consistent m → alive m → alive (call c m).1.
Proof.
  intros Hm [Hlive Hbelow]. destruct c as [s|s| |e c|e t|e t|e|a| |]; simpl.
  - rewrite register_system_state. destruct (dmem _ _); [done|].
    destruct (register_actions_frame (sys_ref s) (actions s)
      (set_systems (dset (sys_ref s) [] (systems m)) m))
      as (Hid & He & Hc & _). simpl in *.
    split.
    + intros e t c. rewrite (stored_components m) by done. rewrite He.
      apply Hlive.
    + intros e. rewrite He, Hid. apply Hbelow.
  - rewrite deregister_system_state. destruct (dget _ _) as [acts|]; [|done].
    destruct (drop_stale_frame acts
      (set_systems (dpop (sys_ref s) (systems m)) m))
      as (Hid & He & Hc & _). simpl in *.
    split.
    + intros e t c. rewrite (stored_components m) by done. rewrite He.
      apply Hlive.
    + intros e. rewrite He, Hid. apply Hbelow.
  - split; simpl.
    + intros e t c Hs. apply elem_of_union_r. by eapply Hlive.
    + intros e He. apply elem_of_union in He as [He|He].
      * apply elem_of_singleton in He as ->. lia.
      * apply Hbelow in He. lia.
  - destruct (decide (e ∈ entities m)) as [He|He];
      [|by rewrite register_component_unknown].
    rewrite register_component_live by done.
    assert (∀ e' t c', (if decide (t = cid c ∧ e' = e) then Some c
                        else stored m e' t) = Some c' → e' ∈ entities m) as Hst.
    { intros e' t c'. destruct (decide _) as [[_ ->]|_]; [done|]. apply Hlive. }
    destruct (stored m e (cid c)); simpl; split; simpl; try done.
    + intros e' t c'. rewrite (stored_installed m _ e c) by done. apply Hst.
    + intros e' t c'. rewrite (stored_installed m _ e c) by done. apply Hst.
  - destruct (decide (e ∈ entities m)).
    + by rewrite fetch_component_live.
    + by rewrite fetch_component_unknown.
  - destruct (decide (e ∈ entities m));
      [|by rewrite deregister_component_unknown].
    rewrite deregister_component_live by done.
    destruct (stored m e t); [|done]. simpl. split; simpl; [|done].
    intros e' t' c'. rewrite stored_deregistered.
    destruct (decide _); [done|]. apply Hlive.
  - destruct (decide (e ∈ entities m)); [|by rewrite destroy_entity_unknown].
    rewrite destroy_entity_live by done. simpl. split; simpl.
    + intros e' t c'.
      rewrite (stored_components
                 (fold_left (deregister_step e) (registered_components m e) m))
        by done.
      destruct (decide (e' = e)) as [->|Hne].
      * by rewrite destroyed_store_empty.
      * rewrite stored_deregister_all, decide_False by (by intros [? _]).
        intros Hs. apply elem_of_difference. split; [by eapply Hlive|].
        by rewrite elem_of_singleton.
    + intros e' He'. apply elem_of_difference in He' as [He' _].
      rewrite deregister_all_entity_id. by apply Hbelow.
  - by rewrite fetch_archetype_frame.
  - done.
  - done.
Qed.

Lemma reachable_alive m : reachable m → alive m.
Proof.
  intros [cs <-].
  apply (calls_invariant (λ m, consistent m ∧ alive m)).
  - intros c m [Hc Ha]. split; [by apply consistent_call | by apply alive_call].
  - split; [apply consistent_new|]. split.
    + intros e t c. done.
    + intros e He. by apply not_elem_of_empty in He.
Qed.

(** X9: on a reachable manager, an entity that holds a component, or that
    is in the bucket of an archetype with at least one type, is live, and
    every live id is below the id counter. *)
Theorem holders_are_live m e :
  reachable m →
  ((∃ t, is_Some (stored m e t)) → e ∈ entities m)
  ∧ ((∃ archetype bucket, (archetype, bucket) ∈ archetypes m
        ∧ archetype ≠ [] ∧ is_Some (dget e bucket)) → e ∈ entities m)
  ∧ (e ∈ entities m → e < entity_id m).
Proof.
  intros Hreach. pose proof (reachable_alive m Hreach) as [Hlive Hbelow].
  apply reachable_consistent in Hreach as Hm. split_and!.
  - intros (t & c & Hc). by eapply Hlive.
  - intros (a & b & Hin & Hne & He). destruct a as [|t a]; [done|].
    destruct (bucket_sound m Hm (t :: a) b e t) as [c Hc]; [done | done | left |].
    by eapply Hlive.
  - apply Hbelow.
Qed.

Lemma holders_are_live_witness :
  reachable game_manager ∧ 0 ∈ entities game_manager ∧ 0 < entity_id game_manager.
Proof.
  assert (reachable game_manager) as Hr by (by exists game_calls).
  destruct (holders_are_live game_manager 0 Hr) as (Hhold & _ & Hbelow).
  assert (0 ∈ entities game_manager) as Hl.
  { apply Hhold. exists 0. by eexists. }
  split_and!; [done | done | by apply Hbelow].
Defined.

(** X10: on a reachable manager, [create_entity] returns the value of the
    id counter, which is not a live entity, holds no component and is in no
    bucket of an archetype with at least one type; afterwards it is live
    and the counter is one higher. *)
Theorem create_entity_is_new m :
  reachable m →
  let r := create_entity m in
  r.1 = Ok (entity_id m)
  ∧ (entity_id m ∉ entities m)
  ∧ (∀ t, stored m (entity_id m) t = None)
  ∧ (∀ archetype bucket, (archetype, bucket) ∈ archetypes m →
       archetype ≠ [] → dget (entity_id m) bucket = None)
  ∧ entities r.2 = {[entity_id m]} ∪ entities m
  ∧ entity_id r.2 = S (entity_id m).
Proof.
  intros Hreach. pose proof (reachable_alive m Hreach) as [Hlive Hbelow].
  apply reachable_consistent in Hreach as Hm.
  assert (entity_id m ∉ entities m) as Hnew.
  { intros Hin. apply Hbelow in Hin. lia. }
  assert (∀ t, stored m (entity_id m) t = None) as Hnone.
  { intros t. destruct (stored m (entity_id m) t) eqn:Hs; [|done].
    by apply Hlive in Hs. }
  simpl. split_and!; [done | done | done | | done | simpl; lia].
  intros a b Hin Hne. destruct (dget (entity_id m) b) eqn:Hrow; [|done].
  destruct a as [|t a]; [done|].
  destruct (bucket_sound m Hm (t :: a) b (entity_id m) t) as [c Hc];
    [done | by rewrite Hrow | left |].
  by rewrite Hnone in Hc.
Qed.

Lemma create_entity_is_new_witness :
  reachable game_manager
  ∧ (create_entity game_manager).1 = Ok 1
  ∧ (1 ∉ entities game_manager).
Proof.
  assert (reachable game_manager) as Hr by (by exists game_calls).
  destruct (create_entity_is_new game_manager Hr) as (Hret & Hnew & _).
  split_and!; [done | exact Hret | exact Hnew].
Defined.

Lemma rows_typed_deregistered e t m :
  rows_typed m → rows_typed (deregistered e t m).
Proof.
  intros Hrows a b e' row Hin Hrow. simpl in Hin.
  apply list_elem_of_fmap in Hin as ([a0 b0] & Heq & Hin).
  rewrite (surjective_pairing (prune_bucket e t (a0, b0))) in Heq.
  rewrite prune_bucket_key, prune_bucket_row in Heq. simpl in Heq.
  injection Heq as -> ->. destruct (decide (t ∈ a0)); [|by eapply Hrows].
  destruct (decide (e' = e)) as [->|Hne].
  - by rewrite dget_dpop_eq in Hrow.
  - rewrite dget_dpop_ne in Hrow by done. by eapply Hrows.
Qed.

Lemma rows_typed_deregister_all e cs m :
  rows_typed m → rows_typed (fold_left (deregister_step e) cs m).
Proof.
  revert m. induction cs as [|c cs IH]; intros m Hrows; [done|].
  simpl. apply IH. unfold deregister_step.
  destruct (stored m e (cid c)); [|done]. by apply rows_typed_deregistered.
Qed.

Lemma rows_typed_call c m :
  consistent m → rows_typed m → rows_typed (call c m).1.
Proof.
  intros Hm Hrows. destruct c as [s|s| |e c|e t|e t|e|a| |]; simpl.
  - rewrite register_system_state. destruct (dmem _ _); [done|].
    intros a b e row Hin Hrow.
    apply register_actions_buckets in Hin as [Hin| ->]; [by eapply Hrows|done].
  - rewrite deregister_system_state. destruct (dget _ _) as [acts|]; [|done].
    intros a b e row Hin Hrow. apply drop_stale_buckets in Hin.
    by eapply Hrows.
  - done.
  - destruct (decide (e ∈ entities m)) as [He|He];
      [|by rewrite register_component_unknown].
    pose proof (consistent_register_component e c m Hm) as Hm'.
    revert Hm'. rewrite register_component_live by done.
    destruct (stored m e (cid c)); simpl; [done|].
    set (m1 := set_components _ _). intros Hm' a b e' row Hin Hrow.
    simpl in Hin. apply list_elem_of_fmap in Hin as ([a0 b0] & Heq & Hin).
    unfold refresh_bucket in Heq. simpl in Heq.
    destruct (dmem e b0); [injection Heq as -> ->; by eapply Hrows|].
    destruct (gather m1 e a0) as [vals|] eqn:Hg;
      [|injection Heq as -> ->; by eapply Hrows].
    injection Heq as -> ->.
    destruct (decide (e' = e)) as [->|Hne];
      [|rewrite dget_dset_ne in Hrow by done; by eapply Hrows].
    rewrite dget_dset_eq in Hrow. injection Hrow as ->.
    unfold gather in Hg. apply mapM_Some in Hg.
    eapply Forall2_impl; [done|]. intros t c' Hc'. simpl in Hc'.
    apply (store_typed _ Hm' e t c').
    by rewrite (stored_components m1).
  - destruct (decide (e ∈ entities m)).
    + by rewrite fetch_component_live.
    + by rewrite fetch_component_unknown.
  - destruct (decide (e ∈ entities m));
      [|by rewrite deregister_component_unknown].
    rewrite deregister_component_live by done.
    destruct (stored m e t); [|done]. simpl.
    by apply rows_typed_deregistered.
  - destruct (decide (e ∈ entities m)); [|by rewrite destroy_entity_unknown].
    rewrite destroy_entity_live by done. simpl.
    by apply rows_typed_deregister_all.
  - by rewrite fetch_archetype_frame.
  - done.
  - done.
Qed.

Lemma reachable_rows_typed m : reachable m → rows_typed m.
Proof.
  intros [cs <-].
  apply (calls_invariant (λ m, consistent m ∧ rows_typed m)).
  - intros c m [Hc Ha].
    split; [by apply consistent_call | by apply rows_typed_call].
  - split; [apply consistent_new|].
    intros a b e row Hin. by apply elem_of_nil in Hin.
Qed.

(** X11: on a reachable manager, every row of every bucket has as many
    components as the archetype has types, and the component in each slot
    is of the type of that slot (also when it is no longer the registered
    one). *)
Theorem rows_match_archetype m archetype bucket e row :
  reachable m → (archetype, bucket) ∈ archetypes m → dget e bucket = Some row →
  length row = length archetype
  ∧ ∀ i t c, archetype !! i = Some t → row !! i = Some c → cid c = t.
Proof.
  intros Hreach Hin Hrow.
  pose proof (reachable_rows_typed m Hreach archetype bucket e row Hin Hrow)
    as Hall.
  split.
  - symmetry. by eapply Forall2_length.
  - intros i t c Ht Hc. by eapply (Forall2_lookup_lr _ _ _ i t c Hall).
Qed.

Lemma rows_match_archetype_witness :
  reachable game_manager
  ∧ ([0; 3], [(0, [transform_a; velocity_a])]) ∈ archetypes game_manager
  ∧ length [transform_a; velocity_a] = 2
  ∧ cid velocity_a = 3.
Proof.
  assert (reachable game_manager) as Hr by (by exists game_calls).
  assert (([0; 3], [(0, [transform_a; velocity_a])]) ∈ archetypes game_manager)
    as Hin.
  { assert (archetypes game_manager
            = [([0; 1], [(0, [transform_a; collider_a])]);
               ([0; 3], [(0, [transform_a; velocity_a])])]) as ->
      by (vm_compute; reflexivity).
    right. left. }
  destruct (rows_match_archetype game_manager [0; 3] _ 0
              [transform_a; velocity_a] Hr Hin eq_refl) as [Hlen Hslot].
  split_and!; [done | done | exact Hlen |].
  by apply (Hslot 1).
Defined.

(** ** The system registry and the archetype index *)

Lemma built_reachable m : built m → reachable m.
Proof. intros (cs & _ & Hcs). by exists cs. Qed.

Lemma calls_invariant_proper (P : EcsManager → Prop) :
  (∀ c m, proper_call c → P m → P (call c m).1) →
  ∀ cs m, Forall proper_call cs → P m → P (calls cs m).1.
Proof.
  intros Hstep cs. induction cs as [|c cs IH]; intros m Hcs Hm; [done|].
  apply Forall_cons in Hcs as [Hc Hcs]. simpl. by apply IH, Hstep.
Qed.

Lemma is_Some_dget_keys {K V} `{EqDecision K} (k : K) (d : dict K V) :
  is_Some (dget k d) ↔ k ∈ dkeys d.
Proof.
  rewrite <- not_eq_None_Some, dget_None_keys.
  split; [apply dec_stable | by intros ? ?].
Qed.

Lemma archetype_in_use_elem a registry :
  archetype_in_use a registry = true
  ↔ ∃ s acts action, (s, acts) ∈ registry ∧ (action, a) ∈ acts.
Proof.
  unfold archetype_in_use. rewrite existsb_exists. split.
  - intros ([s acts] & Hin & Hb). apply list_elem_of_In in Hin.
    apply bool_decide_eq_true in Hb. unfold dvalues in Hb. simpl in Hb.
    apply list_elem_of_fmap in Hb as ([action a'] & -> & Hb).
    by exists s, acts, action.
  - intros (s & acts & action & Hin & Hb). exists (s, acts).
    split; [by apply list_elem_of_In|].
    apply bool_decide_eq_true. unfold dvalues.
    apply list_elem_of_fmap. by exists (action, a).
Qed.

Lemma archetype_in_use_app a r1 r2 :
  archetype_in_use a (r1 ++ r2) = archetype_in_use a r1 || archetype_in_use a r2.
Proof. unfold archetype_in_use. apply existsb_app. Qed.

Lemma fold_dset_bindings acts (acc : dict Action Archetype) :
  NoDup (dkeys acc ++ dkeys acts) →
  fold_left (λ d x, dset x.1 (flatten_archetype x.2) d) acts acc
  = acc ++ bindings acts.
Proof.
  revert acc. induction acts as [|[a cls] acts IH]; intros acc Hnd.
  - by rewrite app_nil_r.
  - simpl. unfold dkeys in Hnd. csimpl in Hnd.
    assert (dget a acc = None) as Hacc.
    { apply dget_None_keys. apply NoDup_app in Hnd as (_ & Hd & _).
      intros Hin. apply (Hd a Hin). left. }
    rewrite IH.
    + rewrite dset_absent by done. by rewrite <- app_assoc.
    + rewrite dset_absent by done. unfold dkeys. rewrite fmap_app. simpl.
      rewrite <- app_assoc. done.
Qed.

Lemma register_actions_systems sref acts registry acc m :
  dget sref registry = None → systems m = registry ++ [(sref, acc)] →
  systems (fold_left (register_action sref) acts m)
  = registry ++ [(sref, fold_left (λ d x, dset x.1 (flatten_archetype x.2) d)
                         acts acc)].
Proof.
  intros Hnew. revert acc m.
  induction acts as [|x acts IH]; intros acc m Hm; [done|]. simpl.
  apply IH. unfold register_action. simpl.
  assert (dalter (dset x.1 (flatten_archetype x.2)) sref (systems m)
          = registry ++ [(sref, dset x.1 (flatten_archetype x.2) acc)]) as Hs.
  { rewrite Hm. by apply dalter_app_last. }
  by destruct (dmem _ _).
Qed.

(** The manager after [register_system] of a system that is not registered
    and whose actions are pairwise different. *)
Lemma register_system_new s m :
  dget (sys_ref s) (systems m) = None → NoDup (dkeys (actions s)) →
  ∃ fresh,
    systems (register_system s m).2
    = systems m ++ [(sys_ref s, bindings (actions s))]
    ∧ archetypes (register_system s m).2 = archetypes m ++ fresh
    ∧ Forall (λ x, dget x.1 (archetypes m) = None
                   ∧ x.1 ∈ dvalues (bindings (actions s))) fresh
    ∧ (∀ a, a ∈ dvalues (bindings (actions s)) →
         is_Some (dget a (archetypes m ++ fresh)))
    ∧ entity_id (register_system s m).2 = entity_id m
    ∧ entities (register_system s m).2 = entities m
    ∧ components (register_system s m).2 = components m
    ∧ deltatime (register_system s m).2 = deltatime m
    ∧ eid (register_system s m).2 = eid m.
Proof.
  intros Hnew Hnd. rewrite register_system_state.
  apply dmem_false in Hnew as Hmem. rewrite Hmem.
  set (m0 := set_systems _ m).
  destruct (register_actions_frame (sys_ref s) (actions s) m0)
    as (Hid & He & Hc & Hd & Heid).
  destruct (register_actions_archetypes (sys_ref s) (actions s) m0)
    as (fresh & Ha & Hall & Hsome).
  assert (dvalues (bindings (actions s))
          = flatten_archetype <$> dvalues (actions s)) as Hvals.
  { unfold dvalues, bindings. rewrite <- !list_fmap_compose.
    by apply list_fmap_ext. }
  exists fresh. rewrite Hvals. split_and!; try done.
  - rewrite (register_actions_systems (sys_ref s) (actions s) (systems m) [] m0).
    + by rewrite fold_dset_bindings.
    + done.
    + unfold m0. simpl. by apply dset_absent.
  - eapply Forall_impl; [done|]. by intros x (_ & ? & ?).
Qed.

Lemma Forall_filter_all {A} (P : A → Prop) `{∀ x, Decision (P x)} (l : list A) :
  Forall P l → filter P l = l.
Proof.
  induction 1 as [|x l Hx _ IH]; [done|].
  rewrite filter_cons, decide_True by done. by rewrite IH.
Qed.

Lemma Forall_filter_none {A} (P : A → Prop) `{∀ x, Decision (P x)} (l : list A) :
  Forall (λ x, ¬ P x) l → filter P l = [].
Proof.
  induction 1 as [|x l Hx _ IH]; [done|].
  by rewrite filter_cons, decide_False.
Qed.

(** The buckets that the loop of [deregister_system] keeps. *)
Lemma drop_stale_filter acts m :
  archetypes (fold_left drop_stale_archetype acts m)
  = filter (λ x, archetype_in_use x.1 (systems m) = true ∨ x.1 ∉ dvalues acts)
      (archetypes m).
Proof.
  revert m. induction acts as [|[action a] acts IH]; intros m.
  - simpl. symmetry. apply Forall_filter_all, Forall_forall.
    intros x _. right. apply not_elem_of_nil.
  - simpl. rewrite IH. clear IH.
    assert (systems (drop_stale_archetype m (action, a)) = systems m) as ->.
    { unfold drop_stale_archetype. by destruct (archetype_in_use _ _). }
    unfold drop_stale_archetype. simpl. unfold dvalues. csimpl.
    destruct (archetype_in_use a (systems m)) eqn:Huse; simpl.
    + apply list_filter_iff. intros x. rewrite not_elem_of_cons.
      split; [|tauto]. intros [?|?]; [by left|].
      destruct (decide (x.1 = a)) as [->|?]; [by left | by right].
    + unfold dpop. rewrite list_filter_filter.
      apply list_filter_iff. intros x. rewrite not_elem_of_cons.
      split; [tauto|]. intros [Hx|[? ?]]; [|tauto].
      split; [by left|]. intros Heq. rewrite Heq in Hx. congruence.
Qed.

Lemma indexed_frame m m' :
  systems m' = systems m → dkeys (archetypes m') = dkeys (archetypes m) →
  indexed m → indexed m'.
Proof.
  intros Hs Ha [Hk Hb Hbb]. split.
  - by rewrite Hs.
  - intros a. rewrite Hs, is_Some_dget_keys, Ha, <- is_Some_dget_keys. apply Hb.
  - intros a. rewrite Hs, is_Some_dget_keys, Ha, <- is_Some_dget_keys. apply Hbb.
Qed.

Lemma indexed_register_system s m :
  NoDup (dkeys (actions s)) → indexed m → indexed (register_system s m).2.
Proof.
  intros Hnd Hm. destruct (dget (sys_ref s) (systems m)) as [acts|] eqn:Hreg.
  { rewrite register_system_state.
    assert (dmem (sys_ref s) (systems m) = true) as ->; [|done].
    apply dmem_true. by eexists. }
  destruct (register_system_new s m Hreg Hnd)
    as (fresh & Hs & Ha & Hfresh & Hsome & _).
  destruct Hm as [Hk Hb Hbb]. rewrite Forall_forall in Hfresh. split.
  - rewrite Hs. unfold dkeys. rewrite fmap_app. simpl.
    apply NoDup_app. split_and!; [done | | apply NoDup_singleton].
    intros k Hin Hk'. apply list_elem_of_singleton in Hk' as ->.
    by apply dget_None_keys in Hreg.
  - intros a. rewrite Hs, Ha, archetype_in_use_app, dget_app. simpl.
    rewrite orb_false_r.
    destruct (dget a (archetypes m)) as [b|] eqn:Hold.
    + intros _. rewrite Hb; [done|]. by eexists.
    + intros [b Hget]. apply dget_Some_elem in Hget.
      destruct (Hfresh _ Hget) as [_ Hin]. simpl in Hin.
      rewrite bool_decide_eq_true_2 by done. apply orb_true_r.
  - intros a. rewrite Hs, Ha, archetype_in_use_app. simpl.
    rewrite orb_false_r. intros Huse.
    apply orb_true_iff in Huse as [Huse|Huse].
    + apply Hbb in Huse as [b Hget]. rewrite dget_app, Hget. by eexists.
    + apply bool_decide_eq_true in Huse. by apply Hsome.
Qed.

Lemma indexed_deregister_system s m :
  indexed m → indexed (deregister_system s m).2.
Proof.
  intros [Hk Hb Hbb]. rewrite deregister_system_state.
  destruct (dget (sys_ref s) (systems m)) as [acts|] eqn:Hreg; [|done].
  set (m1 := set_systems (dpop (sys_ref s) (systems m)) m).
  destruct (drop_stale_frame acts m1) as (_ & _ & _ & _ & _ & Hs).
  assert (∀ a, archetype_in_use a (dpop (sys_ref s) (systems m)) = true →
               archetype_in_use a (systems m) = true) as Hsub.
  { intros a. rewrite !archetype_in_use_elem.
    intros (s0 & acts0 & action & Hin & Ha).
    apply list_elem_of_filter in Hin as [_ Hin]. by exists s0, acts0, action. }
  split.
  - rewrite Hs. simpl. by apply NoDup_dkeys_dpop.
  - intros a. rewrite Hs, drop_stale_lookup. simpl.
    destruct (archetype_in_use a (dpop (sys_ref s) (systems m))) eqn:Huse;
      [done|]. simpl.
    case_bool_decide as Hin; simpl; [by intros [? ?]|].
    intros Hget. apply Hb in Hget.
    apply archetype_in_use_elem in Hget as (s0 & acts0 & action & Hin0 & Ha).
    assert (archetype_in_use a (dpop (sys_ref s) (systems m)) = true);
      [|congruence].
    apply archetype_in_use_elem. exists s0, acts0, action. split; [|done].
    apply list_elem_of_filter. split; [|done]. simpl. intros ->.
    apply Hin. rewrite (elem_NoDup_dget _ _ _ Hk Hin0) in Hreg.
    injection Hreg as ->. unfold dvalues. apply list_elem_of_fmap.
    by exists (action, a).
  - intros a. rewrite Hs, drop_stale_lookup. simpl. intros Huse.
    rewrite Huse. simpl. by apply Hbb, Hsub.
Qed.

Lemma deregister_all_dkeys e cs m :
  dkeys (archetypes (fold_left (deregister_step e) cs m)) = dkeys (archetypes m)
  ∧ systems (fold_left (deregister_step e) cs m) = systems m.
Proof.
  revert m. induction cs as [|c cs IH]; intros m; [done|]. simpl.
  destruct (IH (deregister_step e m c)) as [-> ->].
  unfold deregister_step. destruct (stored m e (cid c)); [|done]. simpl.
  split; [|done]. apply dkeys_fmap_entries, prune_bucket_key.
Qed.

Lemma indexed_call c m : proper_call c → indexed m → indexed (call c m).1.
Proof.
  intros Hc Hm. destruct c as [s|s| |e c|e t|e t|e|a| |]; simpl.
  - by apply indexed_register_system.
  - by apply indexed_deregister_system.
  - by apply (indexed_frame m).
  - destruct (decide (e ∈ entities m)) as [He|He];
      [|by rewrite register_component_unknown].
    destruct (register_component_archetypes m e c He) as (f & Hkey & _ & Ha).
    apply (indexed_frame m); [| |done].
    + rewrite register_component_live by done.
      by destruct (stored m e (cid c)).
    + rewrite Ha. by apply dkeys_fmap_entries.
  - destruct (decide (e ∈ entities m)).
    + by rewrite fetch_component_live.
    + by rewrite fetch_component_unknown.
  - destruct (decide (e ∈ entities m));
      [|by rewrite deregister_component_unknown].
    rewrite deregister_component_live by done.
    destruct (stored m e t); [|done]. simpl.
    apply (indexed_frame m); [done | | done]. simpl.
    apply dkeys_fmap_entries, prune_bucket_key.
  - destruct (decide (e ∈ entities m)); [|by rewrite destroy_entity_unknown].
    rewrite destroy_entity_live by done. simpl.
    destruct (deregister_all_dkeys e (registered_components m e) m) as [Ha Hs].
    by apply (indexed_frame m).
  - by rewrite fetch_archetype_frame.
  - by apply (indexed_frame m).
  - by apply (indexed_frame m).
Qed.

Lemma built_indexed m : built m → indexed m.
Proof.
  intros (cs & Hcs & <-). apply (calls_invariant_proper indexed).
  - apply indexed_call.
  - done.
  - split; [apply NoDup_nil_2 | by intros a [? ?] | done].
Qed.

Lemma manager_ext m m' :
  entity_id m' = entity_id m → entities m' = entities m →
  systems m' = systems m → archetypes m' = archetypes m →
  components m' = components m → deltatime m' = deltatime m →
  eid m' = eid m → m' = m.
Proof. destruct m, m'. simpl. by intros -> -> -> -> -> -> ->. Qed.

(** X3: on a manager built by calls, registering a system that is not
    registered and deregistering it right away gives back the manager as it
    was: the buckets that the registration created are dropped again, and
    no other bucket is. *)
Theorem register_then_deregister s m :
  built m → dget (sys_ref s) (systems m) = None → NoDup (dkeys (actions s)) →
  (deregister_system s (register_system s m).2).2 = m.
Proof.
  intros Hbuilt Hnew Hnd. apply built_indexed in Hbuilt as [Hk Hb Hbb].
  destruct (register_system_new s m Hnew Hnd)
    as (fresh & Hs & Ha & Hfresh & Hsome & Hid & He & Hc & Hd & Heid).
  rewrite deregister_system_state, Hs, dget_app, Hnew. simpl.
  rewrite decide_True by done.
  set (m1 := set_systems _ _).
  assert (systems m1 = systems m) as Hs1.
  { unfold m1. simpl. unfold dpop. rewrite filter_app.
    fold (dpop (sys_ref s) (systems m)). rewrite dpop_absent by done.
    rewrite filter_cons, decide_False by (by intros ?).
    by rewrite filter_nil, app_nil_r. }
  destruct (drop_stale_frame (bindings (actions s)) m1)
    as (Hid' & He' & Hc' & Hd' & Heid' & Hs').
  apply manager_ext.
  - by rewrite Hid'.
  - by rewrite He'.
  - by rewrite Hs'.
  - rewrite drop_stale_filter, Hs1. unfold m1. simpl. rewrite Ha, filter_app.
    rewrite Forall_filter_all, Forall_filter_none; [by rewrite app_nil_r | |].
    + eapply Forall_impl; [done|]. intros x [Hx Hin] [Huse|Hno]; [|done].
      apply Hbb in Huse as [? ?]. congruence.
    + apply Forall_forall. intros [a b] Hin. left. apply Hb. simpl.
      apply is_Some_dget_keys. unfold dkeys. apply list_elem_of_fmap.
      by exists (a, b).
  - by rewrite Hc'.
  - by rewrite Hd'.
  - by rewrite Heid'.
Qed.

Lemma register_then_deregister_witness :
  built game_manager
  ∧ dget (sys_ref collider_system') (systems game_manager) = None
  ∧ (deregister_system collider_system'
       (register_system collider_system' game_manager).2).2 = game_manager.
Proof.
  assert (built game_manager) as Hb.
  { exists game_calls. split; [|done].
    unfold game_calls.
    repeat apply Forall_cons_2; try apply Forall_nil_2; simpl; try done;
      apply NoDup_singleton. }
  assert (dget (sys_ref collider_system') (systems game_manager) = None)
    as Hn by reflexivity.
  split_and!; [done | done |].
  apply register_then_deregister; [done | done | apply NoDup_singleton].
Defined.

(** X4: [fetch_archetype] returns the rows of the bucket in the order of
    the bucket, or nothing when there is no bucket; on a manager built by
    calls there is a bucket exactly for the archetypes that an action of a
    registered system is bound to. *)
Theorem fetch_archetype_known_iff_bound m a :
  built m →
  (fetch_archetype a m).1 = Ok (dvalues <$> dget a (archetypes m))
  ∧ (is_Some (dget a (archetypes m))
     ↔ ∃ s actionset action,
         (s, actionset) ∈ systems m ∧ (action, a) ∈ actionset).
Proof.
  intros Hbuilt. apply built_indexed in Hbuilt as [Hk Hb Hbb]. split.
  - unfold fetch_archetype, bind, get_state, ret.
    by destruct (dget a (archetypes m)).
  - rewrite <- archetype_in_use_elem. split; [apply Hb | apply Hbb].
Qed.

Lemma fetch_archetype_known_iff_bound_witness :
  built game_manager
  ∧ (fetch_archetype [0; 3] game_manager).1
    = Ok (Some [[transform_a; velocity_a]])
  ∧ (fetch_archetype [3; 0] game_manager).1 = Ok None.
Proof.
  assert (built game_manager) as Hb.
  { exists game_calls. split; [|done].
    unfold game_calls.
    repeat apply Forall_cons_2; try apply Forall_nil_2; simpl; try done;
      apply NoDup_singleton. }
  destruct (fetch_archetype_known_iff_bound game_manager [0; 3] Hb) as [H1 _].
  destruct (fetch_archetype_known_iff_bound game_manager [3; 0] Hb) as [H2 _].
  split_and!; [done | by rewrite H1 | by rewrite H2].
Defined.

(** ** [cleanup] tears everything down *)

Lemma for_items_silent {A} size n (items : list A) body m :
  size m = n → (∀ x m, body x m = (Ok tt, m)) →
  for_items size n items body m = (Ok tt, m).
Proof.
  intros Hsize Hbody. induction items as [|x items IH]; simpl.
  - by rewrite decide_True.
  - rewrite decide_True by done. unfold bind. by rewrite Hbody.
Qed.

Lemma calls_app cs1 cs2 m :
  (calls (cs1 ++ cs2) m).1 = (calls cs2 (calls cs1 m).1).1.
Proof.
  revert m. induction cs1 as [|c cs1 IH]; intros m; [done|]. simpl. apply IH.
Qed.

Lemma calls_cons c cs m : (calls (c :: cs) m).1 = (calls cs (call c m).1).1.
Proof. done. Qed.

Lemma deregister_system_ok s m : (deregister_system s m).1 = Ok tt.
Proof.
  unfold deregister_system, bind, get_state, modify, ret.
  by destruct (dget (sys_ref s) (systems m)).
Qed.

Lemma deregister_loop (obj : nat → System) ks m :
  for_each ks (λ k, deregister_system (obj k)) m
  = (Ok tt, (calls ((λ k, CallDeregisterSystem (obj k)) <$> ks) m).1).
Proof.
  revert m. induction ks as [|k ks IH]; intros m; [done|]. simpl.
  unfold bind at 1.
  pose proof (deregister_system_ok (obj k) m) as Hok.
  destruct (deregister_system (obj k) m) as [r m1]. simpl in *. subst r.
  apply IH.
Qed.

Lemma destroy_loop es m :
  NoDup es → (∀ e, e ∈ es → e ∈ entities m) →
  for_each es (λ e, destroy_entity e;; ret tt) m
  = (Ok tt, (calls (CallDestroyEntity <$> es) m).1).
Proof.
  revert m. induction es as [|e es IH]; intros m Hnd Hlive; [done|].
  apply NoDup_cons in Hnd as [Hne Hnd]. simpl. unfold bind at 1 2.
  assert (e ∈ entities m) as He by (apply Hlive; left).
  rewrite destroy_entity_live by done. simpl. apply IH; [done|].
  intros e' He'. simpl.
  apply elem_of_difference. split; [apply Hlive; by right|].
  rewrite elem_of_singleton. by intros ->.
Qed.

Lemma systems_deregister_system s m :
  systems (deregister_system s m).2 = dpop (sys_ref s) (systems m).
Proof.
  rewrite deregister_system_state.
  destruct (dget (sys_ref s) (systems m)) as [acts|] eqn:Hreg.
  - by destruct (drop_stale_frame acts
      (set_systems (dpop (sys_ref s) (systems m)) m)) as (_ & _ & _ & _ & _ & ->).
  - by rewrite dpop_absent.
Qed.

Lemma deregister_calls_systems (obj : nat → System) ks m :
  (∀ k, sys_ref (obj k) = k) →
  systems (calls ((λ k, CallDeregisterSystem (obj k)) <$> ks) m).1
  = filter (λ x, x.1 ∉ ks) (systems m).
Proof.
  intros Hobj. revert m. induction ks as [|k ks IH]; intros m.
  - simpl. symmetry. apply Forall_filter_all, Forall_forall.
    intros x _. apply not_elem_of_nil.
  - simpl. rewrite IH, systems_deregister_system, Hobj. unfold dpop.
    rewrite list_filter_filter. apply list_filter_iff. intros x.
    rewrite not_elem_of_cons. tauto.
Qed.

Lemma destroy_calls_frame es m :
  systems (calls (CallDestroyEntity <$> es) m).1 = systems m
  ∧ entities (calls (CallDestroyEntity <$> es) m).1
    = entities m ∖ list_to_set es.
Proof.
  revert m. induction es as [|e es IH]; intros m.
  - split; [done|]. apply leibniz_equiv. set_solver.
  - rewrite fmap_cons, calls_cons.
    change (call (CallDestroyEntity e) m).1 with (destroy_entity e m).2.
    destruct (IH (destroy_entity e m).2) as [-> ->].
    destruct (decide (e ∈ entities m)) as [He|He].
    + rewrite destroy_entity_live by done. simpl.
      destruct (deregister_all_dkeys e (registered_components m e) m)
        as [_ ->].
      split; [done|]. apply leibniz_equiv. set_solver.
    + rewrite destroy_entity_unknown by done. simpl.
      split; [done|]. apply leibniz_equiv. set_solver.
Qed.

Lemma calls_no_create cs m :
  (calls cs m).2 = [] → entity_id (calls cs m).1 = entity_id m.
Proof.
  revert m. induction cs as [|c cs IH]; intros m; [done|]. simpl.
  pose proof (call_entity_id c m) as Hc.
  destruct (call c m).2 as [e|]; simpl; [done|].
  intros Hids. by rewrite IH.
Qed.

Lemma teardown_calls_ids (obj : nat → System) ks es m :
  (calls (((λ k, CallDeregisterSystem (obj k)) <$> ks)
          ++ (CallDestroyEntity <$> es)) m).2 = [].
Proof.
  revert m. induction ks as [|k ks IH]; intros m; simpl.
  - revert m. induction es as [|e es IHe]; intros m; [done|]. simpl.
    apply IHe.
  - apply IH.
Qed.

(** X12: on a manager built by calls, with cleanup hooks that do nothing
    (as those of all the systems of the game), [cleanup] ends without an
    exception and leaves no registered system, no bucket, no live entity
    and no stored component; the id counter keeps its value, so the ids
    handed out before are not handed out again afterwards. *)
Theorem cleanup_tears_down cleanup_hook system_object set_order m :
  built m →
  (∀ k m, cleanup_hook k m = (Ok tt, m)) →
  (∀ k, sys_ref (system_object k) = k) →
  (∀ s, set_order s ≡ₚ elements s) →
  let r := cleanup cleanup_hook system_object set_order m in
  r.1 = Ok tt
  ∧ systems r.2 = [] ∧ archetypes r.2 = [] ∧ entities r.2 = ∅
  ∧ (∀ e t, stored r.2 e t = None)
  ∧ entity_id r.2 = entity_id m.
Proof.
  intros (cs & Hcs & Hm) Hhook Hobj Horder. simpl.
  set (cs2 := (λ k, CallDeregisterSystem (system_object k))
                <$> dkeys (systems m)).
  set (m2 := (calls cs2 m).1).
  set (cs3 := CallDestroyEntity <$> set_order (entities m2)).
  set (m3 := (calls cs3 m2).1).
  assert (cleanup cleanup_hook system_object set_order m = (Ok tt, m3)) as ->.
  { unfold cleanup. unfold bind at 1. unfold get_state at 1. unfold bind at 1.
    rewrite for_items_silent by done.
    unfold bind at 1. unfold get_state at 1. unfold bind at 1.
    rewrite deregister_loop. fold cs2 m2.
    unfold bind at 1. unfold get_state at 1.
    rewrite destroy_loop; [done | |].
    - rewrite Horder. apply NoDup_elements.
    - intros e. rewrite Horder. apply elem_of_elements. }
  assert (m3 = (calls (cs ++ cs2 ++ cs3) new_manager).1) as Hm3.
  { by rewrite !calls_app, Hm. }
  assert (built m3) as Hbuilt.
  { exists (cs ++ cs2 ++ cs3). split; [|done].
    apply Forall_app. split; [done|]. apply Forall_app.
    split; apply Forall_fmap, Forall_forall; by intros. }
  apply built_indexed in Hbuilt as Hidx.
  apply built_reachable, reachable_alive in Hbuilt as [Hlive _].
  destruct (destroy_calls_frame (set_order (entities m2)) m2) as [Hs3 He3].
  fold cs3 m3 in Hs3, He3.
  assert (systems m3 = []) as Hsys.
  { rewrite Hs3. unfold m2, cs2. rewrite deregister_calls_systems by done.
    apply Forall_filter_none, Forall_forall. intros [k acts] Hin Hno.
    apply Hno. simpl. unfold dkeys. apply list_elem_of_fmap.
    by exists (k, acts). }
  assert (entities m3 = ∅) as Hent.
  { rewrite He3. apply leibniz_equiv. intros e. split; [|set_solver].
    intros He. apply elem_of_difference in He as [He Hno].
    exfalso. apply Hno. apply elem_of_list_to_set. rewrite Horder.
    by apply elem_of_elements. }
  split_and!; [done | done | | done | |].
  - destruct (archetypes m3) as [|[a b] rest] eqn:Ha; [done|].
    assert (archetype_in_use a (systems m3) = true) as Huse.
    { apply (buckets_bound m3 Hidx). rewrite Ha. simpl.
      rewrite decide_True by done. by eexists. }
    by rewrite Hsys in Huse.
  - intros e t. destruct (stored m3 e t) as [c|] eqn:Hc; [|done].
    apply Hlive in Hc. rewrite Hent in Hc. by apply not_elem_of_empty in Hc.
  - unfold m3, m2. rewrite <- calls_app. apply calls_no_create.
    apply teardown_calls_ids.
Qed.

Lemma cleanup_tears_down_witness :
  let r := cleanup (λ _, ret tt)
             (λ k, {| sys_ref := k; sid := 0; actions := [] |})
             elements game_manager in
  built game_manager
  ∧ r.1 = Ok tt ∧ systems r.2 = [] ∧ archetypes r.2 = []
  ∧ entity_id r.2 = 1.
Proof.
  intros r.
  assert (built game_manager) as Hb.
  { exists game_calls. split; [|done].
    unfold game_calls.
    repeat apply Forall_cons_2; try apply Forall_nil_2; simpl; try done;
      apply NoDup_singleton. }
  destruct (cleanup_tears_down (λ _, ret tt)
              (λ k, {| sys_ref := k; sid := 0; actions := [] |})
              elements game_manager Hb)
    as (Hok & Hs & Ha & _ & _ & Hid); [done | done | done |].
  split_and!; [done | exact Hok | exact Hs | exact Ha | exact Hid].
Defined.

(** ** The order of the invocations of a tick *)

Lemma iterate_schedule {A} (I : EcsManager → Prop) size n
    (body : A → LoopState → Flow * LoopState) (f : A → list (nat * Action))
    items s :
  (∀ m, I m → size m = n) →
  (∀ x s, I s.1 → ∃ m' new, body x s = (Proceed, (m', s.2 ++ new))
                            ∧ I m' ∧ who <$> new = f x) →
  I s.1 →
  ∃ m' new, iterate size n body items s = (Proceed, (m', s.2 ++ new))
            ∧ I m' ∧ who <$> new = items ≫= f.
Proof.
  intros Hsize Hbody. revert s. induction items as [|x items IH]; intros s Hs.
  - simpl. rewrite decide_True by by apply Hsize.
    exists s.1, []. rewrite app_nil_r. by destruct s.
  - simpl. rewrite decide_True by by apply Hsize.
    destruct (Hbody x s Hs) as (m1 & new1 & -> & Hm1 & Hnew1).
    destruct (IH (m1, s.2 ++ new1) Hm1) as (m2 & new2 & -> & Hm2 & Hnew2).
    exists m2, (new1 ++ new2). simpl. rewrite app_assoc.
    split_and!; [done | done |]. by rewrite fmap_app, Hnew1, Hnew2.
Qed.

Lemma entity_call_frame c m :
  entity_call c →
  systems (call c m).1 = systems m
  ∧ dkeys (archetypes (call c m).1) = dkeys (archetypes m).
Proof.
  intros Hc. destruct c as [s|s| |e c|e t|e t|e|a| |]; simpl; try done.
  - destruct (decide (e ∈ entities m)) as [He|He];
      [|by rewrite register_component_unknown].
    destruct (register_component_archetypes m e c He) as (f & Hkey & _ & Ha).
    split.
    + rewrite register_component_live by done.
      by destruct (stored m e (cid c)).
    + rewrite Ha. by apply dkeys_fmap_entries.
  - destruct (decide (e ∈ entities m)).
    + by rewrite fetch_component_live.
    + by rewrite fetch_component_unknown.
  - destruct (decide (e ∈ entities m));
      [|by rewrite deregister_component_unknown].
    rewrite deregister_component_live by done.
    destruct (stored m e t); [|done]. simpl.
    split; [done|]. apply dkeys_fmap_entries, prune_bucket_key.
  - destruct (decide (e ∈ entities m)); [|by rewrite destroy_entity_unknown].
    rewrite destroy_entity_live by done. simpl.
    destruct (deregister_all_dkeys e (registered_components m e) m) as [Ha Hs].
    by split.
  - by rewrite fetch_archetype_frame.
Qed.

Lemma entity_calls_frame cs m :
  Forall entity_call cs →
  systems (calls cs m).1 = systems m
  ∧ dkeys (archetypes (calls cs m).1) = dkeys (archetypes m).
Proof.
  revert m. induction cs as [|c cs IH]; intros m Hcs; [done|].
  apply Forall_cons in Hcs as [Hc Hcs]. rewrite calls_cons.
  destruct (IH (call c m).1 Hcs) as [-> ->]. by apply entity_call_frame.
Qed.

Lemma run_tick_quiet invoke k dt m trace :
  quiet invoke →
  ∃ m' new,
    run_tick invoke k dt (m, trace) = (Proceed, (m', trace ++ new))
    ∧ who <$> new = schedule m
    ∧ systems m' = systems m ∧ dkeys (archetypes m') = dkeys (archetypes m).
Proof.
  intros Hquiet.
  set (I := λ m', systems m' = systems m
                  ∧ dkeys (archetypes m') = dkeys (archetypes m)).
  assert (∀ m', I m' → length (archetypes m') = length (archetypes m)) as Hlen.
  { intros m' [_ Hk]. unfold dkeys in Hk.
    by rewrite <- (length_fmap fst (archetypes m')), Hk, length_fmap. }
  destruct (iterate_schedule I
    (λ m, length (archetypes m)) (length (archetypes m))
    (λ bucket s,
       iterate (λ m, length (systems m)) (length (systems s.1))
         (λ sys s, iterate (λ _, 0) 0 (run_action invoke k dt bucket.1 sys.1)
                     sys.2 s)
         (systems s.1) s)
    (λ bucket, system ← systems m; entry ← system.2;
               if decide (bucket.1 = entry.2) then [(system.1, entry.1)] else [])
    (archetypes m) (m, trace)) as (m' & new & Hrun & [Hs Ha] & Hnew).
  - done.
  - intros bucket s [Hs Ha]. rewrite Hs.
    apply (iterate_schedule I); [by intros m' [-> _] | | done].
    intros sys s1 Hs1.
    apply (iterate_schedule I); [done | | done].
    intros entry s2 Hs2. unfold run_action.
    destruct (decide (bucket.1 = entry.2)) as [Heq|Hne].
    + set (rows := default [] _).
      destruct (Hquiet entry.1 dt rows s2.1) as (cs & Hcs & Hr).
      destruct (entity_calls_frame cs s2.1 Hcs) as [Hrs Hra].
      rewrite Hr. cbn [fst snd]. eexists _, [_]. split_and!; [done | | done].
      destruct Hs2 as [Hs2 Ha2]. split; cbn [fst]; congruence.
    + exists s2.1, []. rewrite app_nil_r. by destruct s2.
  - done.
  - exists m', new. by split_and!.
Qed.

(** The schedule depends on the registered systems and on the archetypes
    that have a bucket, not on the rows of the buckets. *)
Lemma schedule_frame m m' :
  systems m' = systems m → dkeys (archetypes m') = dkeys (archetypes m) →
  schedule m' = schedule m.
Proof.
  intros Hs Ha.
  assert (∀ m0 : EcsManager, schedule m0 =
    a ← dkeys (archetypes m0); system ← systems m0; entry ← system.2;
    if decide (a = entry.2) then [(system.1, entry.1)] else []) as Hkeys.
  { intros m0. unfold schedule, dkeys.
    induction (archetypes m0) as [|bucket rest IH]; [done|].
    csimpl. by rewrite IH. }
  by rewrite !Hkeys, Hs, Ha.
Qed.

Lemma run_ticks_quiet now elapsed invoke fuel k last m0 m trace :
  quiet invoke →
  systems m = systems m0 → dkeys (archetypes m) = dkeys (archetypes m0) →
  ∃ m' new,
    run_ticks now elapsed invoke fuel k last (m, trace)
    = (StillRunning, (m', trace ++ new))
    ∧ who <$> new = mjoin (replicate fuel (schedule m0))
    ∧ systems m' = systems m0 ∧ dkeys (archetypes m') = dkeys (archetypes m0).
Proof.
  intros Hquiet. revert k last m trace.
  induction fuel as [|fuel IH]; intros k last m trace Hs Ha.
  - exists m, []. by rewrite app_nil_r.
  - cbn [run_ticks]. cbn [fst].
    destruct (run_tick_quiet invoke k (elapsed (now k) last (deltatime m)) m
                trace Hquiet) as (m1 & new1 & -> & Hnew1 & Hs1 & Ha1).
    destruct (IH (S k) (now k) m1 (trace ++ new1)) as
      (m2 & new2 & -> & Hnew2 & Hs2 & Ha2); [congruence | congruence |].
    exists m2, (new1 ++ new2). rewrite app_assoc.
    split_and!; [done | | done | done].
    rewrite fmap_app, Hnew1, Hnew2. cbn [replicate mjoin list_join].
    by rewrite (schedule_frame m0 m).
Qed.

(** X13: when the actions answer [Continue] and use the manager only to
    create and destroy entities, to register, fetch and deregister
    components and to pause and unpause, [process] on a manager with a
    registered system does not return, however many ticks it is given; the
    registered systems and the archetypes with a bucket stay the same, and
    every tick invokes the actions of [schedule], in that order, each
    once. *)
Theorem process_follows_schedule now elapsed invoke fuel m :
  quiet invoke → systems m ≠ [] →
  ∃ m' trace,
    process now elapsed invoke fuel m = (StillRunning, (m', trace))
    ∧ who <$> trace = mjoin (replicate fuel (schedule m))
    ∧ systems m' = systems m ∧ dkeys (archetypes m') = dkeys (archetypes m).
Proof.
  intros Hquiet Hsys. unfold process.
  rewrite decide_False by (by destruct (systems m)).
  destruct (run_ticks_quiet now elapsed invoke fuel 1 (now 0) m m [] Hquiet)
    as (m' & new & Hrun & Hnew & Hs & Ha); [done | done |].
  exists m', new. by split_and!.
Qed.

Lemma process_follows_schedule_witness :
  quiet (λ _ _ _ m, (Ok Continue, (calls [CallCreateEntity] m).1))
  ∧ systems shared_manager ≠ []
  ∧ ∃ m' trace,
      process (λ k, k) (λ current last scale, (current - last) * scale)
        (λ _ _ _ m, (Ok Continue, (calls [CallCreateEntity] m).1))
        2 shared_manager
      = (StillRunning, (m', trace))
      ∧ who <$> trace = [(1, 1); (2, 2); (3, 3); (1, 1); (2, 2); (3, 3)].
Proof.
  assert (quiet (λ _ _ _ m, (Ok Continue, (calls [CallCreateEntity] m).1)))
    as Hq.
  { intros a dt rows m. exists [CallCreateEntity].
    split; [|reflexivity]. apply Forall_cons_2; [exact I | apply Forall_nil_2]. }
  assert (systems shared_manager ≠ []) as Hs by (vm_compute; discriminate).
  split; [exact Hq|]. split; [exact Hs|].
  destruct (process_follows_schedule (λ k, k)
              (λ current last scale, (current - last) * scale) _ 2
              shared_manager Hq Hs) as (m' & trace & Hrun & Hwho & _).
  exists m', trace. split; [exact Hrun|].
  rewrite Hwho. vm_compute. reflexivity.
Defined.

(** ** The time scale *)

Lemma deregister_all_deltatime e cs m :
  deltatime (fold_left (deregister_step e) cs m) = deltatime m.
Proof.
  revert m. induction cs as [|c cs IH]; intros m; [done|]. simpl.
  rewrite IH. unfold deregister_step. by destruct (stored m e (cid c)).
Qed.

Lemma call_deltatime c m :
  deltatime (call c m).1 =
    match c with
    | CallPause => 0
    | CallUnpause => 1
    | _ => deltatime m
    end.
Proof.
  destruct c as [s|s| |e c|e t|e t|e|a| |]; simpl; try done.
  - rewrite register_system_state. destruct (dmem _ _); [done|].
    by destruct (register_actions_frame (sys_ref s) (actions s)
      (set_systems (dset (sys_ref s) [] (systems m)) m))
      as (_ & _ & _ & -> & _).
  - rewrite deregister_system_state. destruct (dget _ _) as [acts|]; [|done].
    by destruct (drop_stale_frame acts
      (set_systems (dpop (sys_ref s) (systems m)) m))
      as (_ & _ & _ & -> & _).
  - destruct (decide (e ∈ entities m)).
    + rewrite register_component_live by done.
      by destruct (stored m e (cid c)).
    + by rewrite register_component_unknown.
  - destruct (decide (e ∈ entities m)).
    + by rewrite fetch_component_live.
    + by rewrite fetch_component_unknown.
  - destruct (decide (e ∈ entities m)).
    + rewrite deregister_component_live by done. by destruct (stored m e t).
    + by rewrite deregister_component_unknown.
  - destruct (decide (e ∈ entities m)).
    + rewrite destroy_entity_live by done. simpl.
      apply deregister_all_deltatime.
    + by rewrite destroy_entity_unknown.
  - by rewrite fetch_archetype_frame.
Qed.

(** X14: the time scale that [get_deltatime] returns is 0 when the last
    [pause] or [unpause] call was [pause] and 1 otherwise (it is 1 on a new
    manager); no other method changes it. *)
Theorem time_scale_follows_pause cs :
  get_deltatime (calls cs new_manager).1
  = (Ok (if paused_by cs false then 0 else 1), (calls cs new_manager).1).
Proof.
  unfold get_deltatime, bind, get_state, ret. f_equal. f_equal.
  assert (∀ m (paused : bool), deltatime m = (if paused then 0 else 1) →
            deltatime (calls cs m).1 = if paused_by cs paused then 0 else 1)
    as Hgen; [|by apply Hgen].
  induction cs as [|c cs IH]; intros m paused Hm; [done|].
  rewrite calls_cons. pose proof (call_deltatime c m) as Hc.
  destruct c; cbn [paused_by]; apply IH; rewrite Hc; done.
Qed.

(** ** What destroying an entity leaves alone *)

Lemma deregister_step_frame e m c :
  (∀ e' t, e' ≠ e → stored (deregister_step e m c) e' t = stored m e' t)
  ∧ (∀ archetype e', e' ≠ e →
       (dget archetype (archetypes (deregister_step e m c)) ≫= dget e')
       = (dget archetype (archetypes m) ≫= dget e'))
  ∧ entity_id (deregister_step e m c) = entity_id m
  ∧ eid (deregister_step e m c) = eid m.
Proof.
  unfold deregister_step. destruct (stored m e (cid c)); [|done].
  split_and!; [| |done|done].
  - intros e' t Hne. rewrite stored_deregistered.
    rewrite decide_False; [done|]. by intros [_ ?].
  - intros archetype e' Hne. simpl.
    rewrite dget_fmap_entries by apply prune_bucket_key.
    destruct (dget archetype (archetypes m)) as [bucket|]; [|done]. simpl.
    rewrite prune_bucket_row. destruct (decide _); [|done].
    by apply dget_dpop_ne.
Qed.

Lemma deregister_all_frame e cs m :
  (∀ e' t, e' ≠ e →
     stored (fold_left (deregister_step e) cs m) e' t = stored m e' t)
  ∧ (∀ archetype e', e' ≠ e →
       (dget archetype (archetypes (fold_left (deregister_step e) cs m))
          ≫= dget e')
       = (dget archetype (archetypes m) ≫= dget e'))
  ∧ entity_id (fold_left (deregister_step e) cs m) = entity_id m
  ∧ eid (fold_left (deregister_step e) cs m) = eid m.
Proof.
  revert m. induction cs as [|c cs IH]; intros m; [done|]. simpl.
  destruct (IH (deregister_step e m c)) as (Hs & Hr & Hid & Heid).
  destruct (deregister_step_frame e m c) as (Hs1 & Hr1 & Hid1 & Heid1).
  split_and!.
  - intros e' t Hne. by rewrite Hs, Hs1.
  - intros archetype e' Hne. by rewrite Hr, Hr1.
  - by rewrite Hid.
  - by rewrite Heid.
Qed.

(** X22: [destroy_entity e] on a live entity [e] takes [e] and nothing
    else out of the live set, and leaves every other entity as it is: the
    components stored for it, and its row in every bucket.  No bucket is
    created or dropped, and the system registry, the id counter, the time
    scale and the owners recorded in the components stay as they are. *)
Theorem destroy_entity_locality m e :
  e ∈ entities m →
  let m' := (destroy_entity e m).2 in
  entities m' = entities m ∖ {[e]}
  ∧ (∀ e' t, e' ≠ e → stored m' e' t = stored m e' t)
  ∧ dkeys (archetypes m') = dkeys (archetypes m)
  ∧ (∀ archetype e', e' ≠ e →
       (dget archetype (archetypes m') ≫= dget e')
       = (dget archetype (archetypes m) ≫= dget e'))
  ∧ systems m' = systems m ∧ entity_id m' = entity_id m
  ∧ deltatime m' = deltatime m ∧ eid m' = eid m.
Proof.
  intros Hlive. cbn zeta. rewrite destroy_entity_live by done. cbn zeta.
  cbn [snd].
  destruct (deregister_all_frame e (registered_components m e) m)
    as (Hs & Hr & Hid & Heid).
  destruct (deregister_all_dkeys e (registered_components m e) m) as [Ha Hsys].
  split_and!; try done.
  apply deregister_all_deltatime.
Qed.

Lemma destroy_entity_locality_witness :
  (0 ∈ entities pair_manager)
  ∧ stored (destroy_entity 0 pair_manager).2 1 0 = Some transform_b
  ∧ systems (destroy_entity 0 pair_manager).2 = systems pair_manager.
Proof.
  assert (0 ∈ entities pair_manager) as Hl
    by (apply (bool_decide_unpack _); vm_compute; exact I).
  split; [exact Hl|].
  destruct (destroy_entity_locality pair_manager 0 Hl)
    as (_ & Hs & _ & _ & Hsys & _).
  split; [|exact Hsys].
  rewrite Hs by discriminate. vm_compute. reflexivity.
Defined.

(** ** Registering a component and taking it back *)

Lemma dpop_dset_absent {K V} `{EqDecision K} (k : K) (v : V) (d : dict K V) :
  dget k d = None → dpop k (dset k v d) = d.
Proof.
  intros Hd. rewrite dset_absent by done. unfold dpop. rewrite filter_app.
  fold (dpop k d). rewrite dpop_absent by done.
  rewrite filter_cons, decide_False by (by intros ?).
  by rewrite filter_nil, app_nil_r.
Qed.

(** X15: on a reachable manager, when a live entity [e] holds no component
    of the type of [c], registering [c] for [e] and deregistering that type
    again returns [c], gives back the component store entry by entry, and
    gives back every bucket whose archetype contains the type. *)
Theorem register_then_deregister_component m e c :
  reachable m → e ∈ entities m → stored m e (cid c) = None →
  let r := deregister_component e (cid c) (register_component e c m).2 in
  r.1 = Ok (Some c)
  ∧ (∀ e' t, stored r.2 e' t = stored m e' t)
  ∧ (∀ archetype, cid c ∈ archetype →
       dget archetype (archetypes r.2) = dget archetype (archetypes m)).
Proof.
  intros Hreach Hlive Hnew. simpl.
  apply reachable_consistent in Hreach as Hm.
  set (m1 := (register_component e c m).2).
  assert (e ∈ entities m1) as Hlive1.
  { unfold m1. rewrite register_component_live by done. by rewrite Hnew. }
  assert (∀ e' t, stored m1 e' t =
            if decide (t = cid c ∧ e' = e) then Some c else stored m e' t)
    as Hst.
  { intros e' t. unfold m1. rewrite register_component_live by done.
    rewrite Hnew. simpl. by rewrite (stored_installed m _ e c). }
  assert (stored m1 e (cid c) = Some c) as Hc
    by by rewrite Hst, decide_True.
  rewrite deregister_component_live by done. rewrite Hc. simpl. split_and!.
  - done.
  - intros e' t. rewrite stored_deregistered, Hst.
    destruct (decide _) as [[-> ->]|]; done.
  - intros archetype Hin.
    rewrite dget_fmap_entries by apply prune_bucket_key.
    destruct (dget archetype (archetypes m)) as [bucket|] eqn:Hb.
    + assert (dget e bucket = None) as He.
      { destruct (dget e bucket) as [row|] eqn:Hrow; [|done]. exfalso.
        destruct (bucket_sound m Hm archetype bucket e (cid c)) as [c' Hc'];
          [by apply dget_Some_elem | by rewrite Hrow | done |].
        by rewrite Hnew in Hc'. }
      unfold m1. rewrite (register_fresh_bucket m e c archetype bucket) by done.
      simpl. rewrite prune_bucket_row, decide_True by done. f_equal.
      destruct (gather _ e archetype); [by apply dpop_dset_absent|].
      by apply dpop_absent.
    + assert (dget archetype (archetypes m1) = None) as ->; [|done].
      apply dget_None_keys. unfold m1.
      destruct (register_component_archetypes m e c Hlive) as (f & Hkey & _ & ->).
      rewrite dkeys_fmap_entries by done. by apply dget_None_keys.
Qed.

Lemma register_then_deregister_component_witness :
  reachable fresh_manager ∧ 0 ∈ entities fresh_manager
  ∧ (deregister_component 0 0
       (register_component 0 transform_a fresh_manager).2).1
    = Ok (Some transform_a).
Proof.
  assert (reachable fresh_manager) as Hr by (by exists fresh_calls).
  assert (0 ∈ entities fresh_manager) as Hl
    by (apply (bool_decide_unpack _); vm_compute; exact I).
  destruct (register_then_deregister_component fresh_manager 0 transform_a
              Hr Hl eq_refl) as (Hret & _).
  split_and!; [done | done | exact Hret].
Defined.

(** ** Class ids are counted per kind *)

(** X16: the component classes get the ids 0, 1, 2, ... in the order in
    which they are decorated, and so do the system classes, however the two
    kinds of class definitions are interleaved. *)
Theorem autoid_counts_each_kind ds a :
  cids (decorate ds a) = seq (_component_id a) (length (cids (decorate ds a)))
  ∧ sids (decorate ds a) = seq (_system_id a) (length (sids (decorate ds a))).
Proof.
  revert a. induction ds as [|d ds IH]; intros a; [done|].
  destruct d; simpl.
  - destruct (IH (component a).2) as [Hc Hs]. simpl in *.
    unfold cids, sids in *. csimpl. split; [|done].
    f_equal. replace (S (_component_id a)) with (_component_id a + 1) by lia.
    exact Hc.
  - destruct (IH (system a).2) as [Hc Hs]. simpl in *.
    unfold cids, sids in *. csimpl. split; [done|].
    f_equal. replace (S (_system_id a)) with (_system_id a + 1) by lia.
    exact Hs.
Qed.

(** ** The saved table holds the highest scores *)

Lemma highest_spec scores :
  scores ≠ [] →
  ∃ entry, highest scores = Some entry ∧ entry ∈ scores
           ∧ ∀ x, x ∈ scores → (x.2 ≤ entry.2)%Z.
Proof.
  induction scores as [|e rest IH]; [done|]. intros _. simpl.
  destruct rest as [|e' rest'].
  - exists e. simpl. split_and!; [done | left |].
    intros x Hx. apply list_elem_of_singleton in Hx as ->. lia.
  - destruct IH as (best & -> & Hin & Hmax); [done|].
    destruct (decide (e.2 < best.2)%Z).
    + exists best. split_and!; [done | by right |].
      intros x Hx. apply elem_of_cons in Hx as [->|Hx]; [lia | by apply Hmax].
    + exists e. split_and!; [done | left |].
      intros x Hx. apply elem_of_cons in Hx as [->|Hx]; [lia|].
      apply Hmax in Hx. lia.
Qed.

Lemma length_dpop {K V} `{EqDecision K} (k : K) (v : V) (d : dict K V) :
  NoDup (dkeys d) → (k, v) ∈ d → S (length (dpop k d)) = length d.
Proof.
  unfold dkeys, dpop. induction d as [|[k' v'] d IH]; simpl.
  - intros _ Hin. by apply elem_of_nil in Hin.
  - intros Hnd Hin. apply NoDup_cons in Hnd as [Hk' Hnd].
    rewrite filter_cons. simpl.
    apply elem_of_cons in Hin as [[= -> ->]|Hin].
    + rewrite decide_False by (by intros ?). f_equal.
      fold (dpop k' d). rewrite dpop_absent; [done|].
      by apply dget_None_keys.
    + rewrite decide_True; [simpl; by rewrite IH|].
      intros ->. apply Hk'. apply list_elem_of_fmap. by exists (k, v).
Qed.

Lemma elem_of_dpop {K V} `{EqDecision K} (k : K) (d : dict K V) x :
  x ∈ dpop k d ↔ x.1 ≠ k ∧ x ∈ d.
Proof. unfold dpop. by rewrite list_elem_of_filter. Qed.

Lemma elem_keys {K V} (d : dict K V) x : x ∈ d → x.1 ∈ dkeys d.
Proof. intros Hx. unfold dkeys. apply list_elem_of_fmap. by exists x. Qed.

Lemma select_highscores_spec n scores highscores :
  NoDup (dkeys scores) → n ≤ length scores →
  (∀ k, k ∈ dkeys highscores → k ∉ dkeys scores) →
  ∃ picked,
    select_highscores n scores highscores = Some (highscores ++ picked)
    ∧ length picked = n
    ∧ (∀ x, x ∈ picked → x ∈ scores)
    ∧ NoDup (dkeys picked)
    ∧ StronglySorted (λ x y, (y.2 ≤ x.2)%Z) picked
    ∧ (∀ x y, x ∈ scores → x ∉ picked → y ∈ picked → (x.2 ≤ y.2)%Z).
Proof.
  revert scores highscores.
  induction n as [|n IH]; intros scores highscores Hnd Hlen Hdisj.
  - exists []. rewrite app_nil_r. split_and!; try done.
    + intros x Hx. by apply elem_of_nil in Hx.
    + apply NoDup_nil_2.
    + constructor.
    + intros x y _ _ Hy. by apply elem_of_nil in Hy.
  - destruct (highest_spec scores) as ([name score] & Hbest & Hin & Hmax).
    { intros ->. simpl in Hlen. lia. }
    simpl. rewrite Hbest. simpl.
    rewrite (elem_NoDup_dget name score scores) by done. simpl.
    assert (dget name highscores = None) as Hnew.
    { apply dget_None_keys. intros Hk. apply (Hdisj _ Hk).
      by apply (elem_keys scores (name, score)). }
    rewrite dset_absent by done.
    destruct (IH (dpop name scores) (highscores ++ [(name, score)]))
      as (picked & -> & Hn & Hsub & Hnd' & Hsort & Hrest).
    + by apply NoDup_dkeys_dpop.
    + pose proof (length_dpop name score scores Hnd Hin). lia.
    + intros k Hk Hk'. unfold dkeys in Hk. rewrite fmap_app in Hk.
      apply elem_of_app in Hk as [Hk|Hk].
      * apply (Hdisj k Hk). unfold dkeys in *.
        apply list_elem_of_fmap in Hk' as (x & -> & Hx).
        apply elem_of_dpop in Hx as [_ Hx]. by apply elem_keys.
      * apply list_elem_of_singleton in Hk as ->.
        apply is_Some_dget_keys in Hk' as [v Hv].
        by rewrite dget_dpop_eq in Hv.
    + exists ((name, score) :: picked). rewrite <- app_assoc. simpl.
      split_and!.
      * done.
      * simpl. by rewrite Hn.
      * intros x Hx. apply elem_of_cons in Hx as [->|Hx]; [done|].
        by apply Hsub, elem_of_dpop in Hx as [_ ?].
      * unfold dkeys. csimpl. apply NoDup_cons. split; [|done].
        intros Hk. apply list_elem_of_fmap in Hk as (x & Hx1 & Hx).
        apply Hsub, elem_of_dpop in Hx as [Hne _]. by apply Hne.
      * constructor; [done|]. apply Forall_forall. intros x Hx. simpl.
        apply Hsub, elem_of_dpop in Hx as [_ Hx]. by apply (Hmax x).
      * intros x y Hx Hno Hy. rewrite not_elem_of_cons in Hno.
        destruct Hno as [Hne Hno].
        apply elem_of_cons in Hy as [->|Hy]; [by apply (Hmax x)|].
        apply (Hrest x y); [|done|done]. apply elem_of_dpop. split; [|done].
        intros Hk. apply Hne. destruct x as [k v]. simpl in Hk. subst k.
        f_equal. pose proof (elem_NoDup_dget name v scores Hnd Hx) as Hv.
        rewrite (elem_NoDup_dget name score scores Hnd Hin) in Hv. congruence.
Qed.

(** X17: after a game the saved table holds the player with the better of
    the new score and the old one (0 for a new player); it has the ten
    highest entries of the updated table (all of them when there are fewer
    than ten), each name once, in descending order of score, and no entry
    that is left out has a higher score than an entry that is kept. *)
Theorem highscores_are_the_highest name score scores :
  NoDup (dkeys scores) →
  let updated := record_score name score scores in
  dget name updated = Some (Z.max score (default 0%Z (dget name scores)))
  ∧ ∃ table,
      highscores_after name score scores = Some table
      ∧ length table = length updated `min` 10
      ∧ (∀ x, x ∈ table → x ∈ updated)
      ∧ NoDup (dkeys table)
      ∧ StronglySorted (λ x y, (y.2 ≤ x.2)%Z) table
      ∧ (∀ x y, x ∈ updated → x ∉ table → y ∈ table → (x.2 ≤ y.2)%Z).
Proof.
  intros Hnd. simpl. split; [apply dget_dset_eq|].
  unfold highscores_after.
  set (updated := record_score name score scores).
  destruct (select_highscores_spec
              (if decide (length updated < 10) then length updated else 10)
              updated [])
    as (table & Hsel & Hlen & Hrest).
  - by apply NoDup_dkeys_dset.
  - destruct (decide _); lia.
  - intros k Hk. by apply elem_of_nil in Hk.
  - exists table. split; [done|]. split; [|done].
    rewrite Hlen. destruct (decide _); lia.
Qed.

Lemma highscores_are_the_highest_witness :
  NoDup (dkeys [("ann", 7%Z); ("bob", 12%Z)])
  ∧ highscores_after "cat" 9 [("ann", 7%Z); ("bob", 12%Z)]
    = Some [("bob", 12%Z); ("cat", 9%Z); ("ann", 7%Z)].
Proof.
  assert (NoDup (dkeys [("ann", 7%Z); ("bob", 12%Z)])) as Hnd.
  { unfold dkeys. simpl. apply NoDup_cons. split; [|apply NoDup_singleton].
    rewrite list_elem_of_singleton. discriminate. }
  destruct (highscores_are_the_highest "cat" 9 _ Hnd) as (_ & table & Ht & _).
  split; [done|]. rewrite Ht. vm_compute in Ht. congruence.
Defined.

(** ** The key handlers keep the bitmask steady *)

Lemma bits_table :
  Forall (λ entry : string * Z,
    ∀ reset, dget entry.1 input_reset_masks = Some reset →
      Forall (λ bits, steady_bits bits →
                steady_bits (Z.lor (Z.land bits reset) entry.2)
                ∧ Z.land (Z.lor (Z.land bits reset) entry.2) entry.2 = entry.2
                ∧ steady_bits (Z.land bits (Z.lxor inverse_bitmask entry.2))
                ∧ Z.land (Z.land bits (Z.lxor inverse_bitmask entry.2)) entry.2
                  ≠ entry.2)
        (seqZ 0 256))
    input_masks.
Proof.
  unfold input_masks.
  repeat (apply Forall_cons_2; [intros reset Hreset; injection Hreset as <-;
    apply (bool_decide_unpack _); vm_compute; exact I|]).
  apply Forall_nil_2.
Qed.

Lemma bits_step binding mask reset bits :
  dget binding input_masks = Some mask →
  dget binding input_reset_masks = Some reset →
  steady_bits bits →
  steady_bits (Z.lor (Z.land bits reset) mask)
  ∧ Z.land (Z.lor (Z.land bits reset) mask) mask = mask
  ∧ steady_bits (Z.land bits (Z.lxor inverse_bitmask mask))
  ∧ Z.land (Z.land bits (Z.lxor inverse_bitmask mask)) mask ≠ mask.
Proof.
  intros Hmask Hreset Hbits. apply dget_Some_elem in Hmask.
  pose proof bits_table as Htable. rewrite Forall_forall in Htable.
  specialize (Htable _ Hmask reset Hreset). rewrite Forall_forall in Htable.
  apply Htable; [|done]. apply elem_of_seqZ. destruct Hbits as [? _]. lia.
Qed.

Lemma move_next_steady key st :
  steady st →
  ∃ st', move_next_code_elem key st = Some st' ∧ steady st'
         ∧ input_bitmask st' = input_bitmask st.
Proof.
  intros [Hbits Hidx]. unfold move_next_code_elem.
  destruct (decide (easter_egg_idx st = -1)%Z) as [Hdone|Hgo]; [by exists st|].
  destruct Hidx as [?|Hidx]; [done|].
  assert (is_Some (index easter_egg (easter_egg_idx st))) as [expected ->].
  { unfold index. rewrite decide_True by lia.
    apply lookup_lt_is_Some. simpl. lia. }
  simpl. destruct (decide (key ≠ expected)).
  - eexists. split_and!; [done | | done]. split; [done|]. simpl. lia.
  - destruct (decide _) as [Hlast|Hmore].
    + eexists. split_and!; [done | | done]. split; [done|]. simpl. lia.
    + eexists. split_and!; [done | | done]. split; [done|]. simpl in *. lia.
Qed.

Lemma pressed_steady lower keysym st :
  steady st → ∃ st', handle_key_pressed lower keysym st = Some st' ∧ steady st'.
Proof.
  intros Hst. unfold handle_key_pressed.
  destruct (move_next_steady (lower keysym) st Hst)
    as (st1 & -> & Hst1 & Hb1). cbn [mbind option_bind].
  destruct (binding_of lower keysym) as [binding|]; [|by exists st1].
  destruct (dmem binding input_masks && dmem binding input_reset_masks)
    eqn:Hmem; [|by exists st1].
  apply andb_true_iff in Hmem as [Hm Hr].
  apply dmem_true in Hm as [mask Hm]. apply dmem_true in Hr as [reset Hr].
  rewrite Hr, Hm. cbn [mbind option_bind]. eexists. split; [done|].
  destruct Hst1 as [Hbits Hidx]. split; [|done]. cbn [input_bitmask set_bitmask].
  by destruct (bits_step binding mask reset _ Hm Hr Hbits) as (? & _).
Qed.

Lemma released_steady lower keysym st :
  steady st → ∃ st', handle_key_released lower keysym st = Some st' ∧ steady st'.
Proof.
  intros Hst. unfold handle_key_released.
  destruct (binding_of lower keysym) as [binding|]; [|by exists st].
  destruct (dmem binding input_masks && dmem binding input_reset_masks)
    eqn:Hmem; [|by exists st].
  apply andb_true_iff in Hmem as [Hm Hr].
  apply dmem_true in Hm as [mask Hm]. apply dmem_true in Hr as [reset Hr].
  rewrite Hm. cbn [mbind option_bind]. eexists. split; [done|].
  destruct Hst as [Hbits Hidx]. split; [|done]. cbn [input_bitmask set_bitmask].
  by destruct (bits_step binding mask reset _ Hm Hr Hbits) as (_ & _ & ? & _).
Qed.

(** X18: from the state after [setup], whatever keys are pressed and
    released in whatever order, no handler fails, the bitmask stays within
    eight bits, and it never shows left together with right or up together
    with down. *)
Theorem opposite_directions_exclude lower events :
  ∃ st, handle_keys lower events after_setup = Some st
    ∧ (0 ≤ input_bitmask st < 256)%Z
    ∧ ¬ (check_mask "left" st = Some true ∧ check_mask "right" st = Some true)
    ∧ ¬ (check_mask "up" st = Some true ∧ check_mask "down" st = Some true).
Proof.
  assert (∀ st, steady st → ∃ st',
            handle_keys lower events st = Some st' ∧ steady st') as Hgen.
  { induction events as [|[keysym|keysym] events IH]; intros st Hst.
    - by exists st.
    - cbn [handle_keys].
      destruct (pressed_steady lower keysym st Hst) as (st' & -> & Hst').
      cbn [mbind option_bind]. by apply IH.
    - cbn [handle_keys].
      destruct (released_steady lower keysym st Hst) as (st' & -> & Hst').
      cbn [mbind option_bind]. by apply IH. }
  destruct (Hgen after_setup) as (st & Hrun & [(Hrange & Hlr & Hud) _]).
  { split; [|right; simpl; lia]. unfold steady_bits. simpl.
    split_and!; try lia; done. }
  exists st. split_and!; [done | lia | lia | |].
  - unfold check_mask. simpl. intros [[= Hl] [= Hr]].
    apply bool_decide_eq_true in Hl, Hr. apply Hlr.
    apply Z.bits_inj'. intros n Hn.
    apply (f_equal (λ z, Z.testbit z n)) in Hl, Hr.
    rewrite Z.land_spec in Hl, Hr |- *.
    change 3%Z with (Z.lor 1 2). rewrite Z.lor_spec.
    destruct (Z.testbit (input_bitmask st) n), (Z.testbit 1 n), (Z.testbit 2 n);
      done.
  - unfold check_mask. simpl. intros [[= Hu] [= Hd]].
    apply bool_decide_eq_true in Hu, Hd. apply Hud.
    apply Z.bits_inj'. intros n Hn.
    apply (f_equal (λ z, Z.testbit z n)) in Hu, Hd.
    rewrite Z.land_spec in Hu, Hd |- *.
    change 12%Z with (Z.lor 4 8). rewrite Z.lor_spec.
    destruct (Z.testbit (input_bitmask st) n), (Z.testbit 4 n), (Z.testbit 8 n);
      done.
Qed.

Lemma binding_has_masks lower keysym binding :
  binding_of lower keysym = Some binding →
  ∃ mask reset, dget binding input_masks = Some mask
                ∧ dget binding input_reset_masks = Some reset.
Proof.
  unfold binding_of. intros Hb.
  assert (∃ key, (key, binding) ∈ controls) as [key Hin].
  { destruct (dmem keysym controls);
      [|destruct (dmem (lower keysym) controls); [|done]];
      apply dget_Some_elem in Hb; by eexists. }
  unfold controls in Hin.
  repeat (apply elem_of_cons in Hin as [Hin|Hin];
          [injection Hin as -> ->; by eexists _, _|]).
  by apply elem_of_nil in Hin.
Qed.

(** X19: in a state that the handlers can reach, pressing a key that is
    bound to a control event makes [check_mask] of that event true, and
    releasing it makes it false. *)
Theorem key_sets_and_clears_its_event lower keysym binding st :
  steady st → binding_of lower keysym = Some binding →
  (∃ st', handle_key_pressed lower keysym st = Some st'
          ∧ check_mask binding st' = Some true)
  ∧ (∃ st', handle_key_released lower keysym st = Some st'
            ∧ check_mask binding st' = Some false).
Proof.
  intros Hst Hbind.
  destruct (binding_has_masks lower keysym binding Hbind)
    as (mask & reset & Hm & Hr).
  assert (dmem binding input_masks && dmem binding input_reset_masks = true)
    as Hmem.
  { apply andb_true_iff. split; apply dmem_true; by eexists. }
  split.
  - unfold handle_key_pressed.
    destruct (move_next_steady (lower keysym) st Hst)
      as (st1 & -> & [Hbits _] & _). cbn [mbind option_bind].
    rewrite Hbind, Hmem, Hr, Hm. cbn [mbind option_bind].
    eexists. split; [done|]. unfold check_mask. rewrite Hm.
    cbn [mbind option_bind input_bitmask set_bitmask].
    destruct (bits_step binding mask reset _ Hm Hr Hbits) as (_ & Hset & _).
    by rewrite bool_decide_eq_true_2.
  - unfold handle_key_released. rewrite Hbind, Hmem, Hm.
    cbn [mbind option_bind]. eexists. split; [done|].
    unfold check_mask. rewrite Hm.
    cbn [mbind option_bind input_bitmask set_bitmask].
    destruct Hst as [Hbits _].
    destruct (bits_step binding mask reset _ Hm Hr Hbits) as (_ & _ & _ & Hclr).
    by rewrite bool_decide_eq_false_2.
Qed.

Lemma key_sets_and_clears_its_event_witness :
  steady after_setup ∧ binding_of id "a" = Some "left"
  ∧ (handle_key_pressed id "a" after_setup ≫= check_mask "left") = Some true.
Proof.
  assert (steady after_setup) as Hst.
  { split; [|right; simpl; lia]. unfold steady_bits. simpl.
    split_and!; try lia; done. }
  assert (binding_of id "a" = Some "left") as Hb by reflexivity.
  destruct (key_sets_and_clears_its_event id "a" "left" after_setup Hst Hb)
    as [(st' & Hpress & Hcheck) _].
  split_and!; [done | done |]. by rewrite Hpress.
Defined.

(** X20: the ten keys of the code, typed one after the other when no part
    of the code has been typed yet, complete the code; once it is completed
    no key changes the state any more, so the code is accepted once. *)
Theorem easter_egg_completes_once st keys :
  (easter_egg_idx st = 0%Z →
   ∃ st', type_keys easter_egg st = Some st'
          ∧ completed_easter_egg st' = true ∧ easter_egg_idx st' = (-1)%Z)
  ∧ (easter_egg_idx st = (-1)%Z → type_keys keys st = Some st).
Proof.
  split.
  - destruct st as [bits idx done']. simpl. intros ->.
    eexists. split; [vm_compute; reflexivity|]. done.
  - intros Hdone. induction keys as [|key keys IH]; [done|].
    simpl. unfold move_next_code_elem. rewrite decide_True by done.
    apply IH.
Qed.

Lemma easter_egg_completes_once_witness :
  easter_egg_idx after_setup = 0%Z
  ∧ (completed_easter_egg <$> type_keys easter_egg after_setup) = Some true.
Proof.
  assert (easter_egg_idx after_setup = 0%Z) as H0 by reflexivity.
  destruct (easter_egg_completes_once after_setup []) as [Hrun _].
  destruct (Hrun H0) as (st' & Heq & Hc & _).
  split; [done|]. rewrite Heq. simpl. by rewrite Hc.
Defined.
